(** * User API: authentication and user use cases

    A shallow embedding of the authentication core of the user API:
    - [app/core/utils.py]                        ValidationUtils
    - [app/domain/user/user_entity.py]           User
    - [app/infrastructure/auth/password_hashing.py]  PasswordHasher (over bcrypt)
    - [app/infrastructure/auth/jwt_handler.py]   JWTHandler (over PyJWT)
    - [app/infrastructure/db/user_model.py] and [mongo_client.py]  the repository
    - [app/core/security.py]                     SecurityService.get_current_user
    - [app/use_cases/user/*.py]                  create, login, list, update, delete

    A Python [str] is modelled by its UTF-8 bytes, as a Rocq [string]
    (one [ascii] per byte); [len] and [lower] agree with Python on ASCII text.
    Time is whole seconds ([nat]), as PyJWT stores [exp] and [iat]. *)

From Stdlib Require Import String Ascii List Bool Arith Lia ZArith.
Import ListNotations.
Open Scope string_scope.
Open Scope nat_scope.

(* ------------------------------------------------------------------ *)
(** ** Python string helpers *)

(** [str.isspace] on one byte: [\t\n\v\f\r], the separators [\x1c]-[\x1f], space. *)
Definition is_space (c : ascii) : bool :=
  let n := nat_of_ascii c in
  ((9 <=? n) && (n <=? 13)) || ((28 <=? n) && (n <=? 32)).

(** [not s or not s.strip()]: empty or whitespace only. *)
Fixpoint is_blank (s : string) : bool :=
  match s with
  | EmptyString => true
  | String c r => is_space c && is_blank r
  end.

Fixpoint lstrip (s : string) : string :=
  match s with
  | EmptyString => EmptyString
  | String c r => if is_space c then lstrip r else s
  end.

Fixpoint str_rev (s : string) : string :=
  match s with
  | EmptyString => EmptyString
  | String c r => str_rev r ++ String c EmptyString
  end.

(** [str.strip()] *)
Definition py_strip (s : string) : string := str_rev (lstrip (str_rev (lstrip s))).

Definition lower_char (c : ascii) : ascii :=
  let n := nat_of_ascii c in
  if (65 <=? n) && (n <=? 90) then ascii_of_nat (n + 32) else c.

(** [str.lower()] *)
Fixpoint py_lower (s : string) : string :=
  match s with
  | EmptyString => EmptyString
  | String c r => String (lower_char c) (py_lower r)
  end.

(** [email.lower().strip()], the normalisation every use case applies. *)
Definition normalize_email (s : string) : string := py_strip (py_lower s).

(** Python truthiness of an [Optional[str]]: [None] and [""] are false. *)
Definition truthy (o : option string) : bool :=
  match o with
  | Some s => negb (String.eqb s "")
  | None => false
  end.

(* ------------------------------------------------------------------ *)
(** ** ValidationUtils *)

Definition char_between (lo hi : nat) (c : ascii) : bool :=
  (lo <=? nat_of_ascii c) && (nat_of_ascii c <=? hi).

Definition is_letter (c : ascii) : bool :=
  char_between 65 90 c || char_between 97 122 c.

Definition is_digit (c : ascii) : bool := char_between 48 57 c.

(** [[a-zA-Z0-9._%+-]] *)
Definition is_local_char (c : ascii) : bool :=
  is_letter c || is_digit c || existsb (Ascii.eqb c) ["."%char; "_"%char; "%"%char; "+"%char; "-"%char].

(** [[a-zA-Z0-9.-]] *)
Definition is_domain_char (c : ascii) : bool :=
  is_letter c || is_digit c || existsb (Ascii.eqb c) ["."%char; "-"%char].

Fixpoint str_forallb (f : ascii -> bool) (s : string) : bool :=
  match s with
  | EmptyString => true
  | String c r => f c && str_forallb f r
  end.

(** Split at the first occurrence of [sep]: [Some (before, after)]. *)
Fixpoint split_first (sep : ascii) (s : string) : option (string * string) :=
  match s with
  | EmptyString => None
  | String c r =>
      if Ascii.eqb c sep then Some (EmptyString, r)
      else match split_first sep r with
           | Some (a, b) => Some (String c a, b)
           | None => None
           end
  end.

(** Split at the last occurrence of [sep]. *)
Definition split_last (sep : ascii) (s : string) : option (string * string) :=
  match split_first sep (str_rev s) with
  | Some (a, b) => Some (str_rev b, str_rev a)
  | None => None
  end.

(** The whole string matches [[a-zA-Z0-9._%+-]+@[a-zA-Z0-9.-]+\.[a-zA-Z]{2,}].
    The top-level domain has no dot, so the separating dot is the last one. *)
Definition email_full_match (s : string) : bool :=
  match split_first "@" s with
  | Some (local, domain) =>
      negb (String.eqb local "") && str_forallb is_local_char local
      && str_forallb is_domain_char domain
      && match split_last "." domain with
         | Some (host, tld) =>
             negb (String.eqb host "") && (2 <=? String.length tld)
             && str_forallb is_letter tld
         | None => false
         end
  | None => false
  end.

Definition newline : ascii := ascii_of_nat 10.

(** [re.match(pattern, email)] with [^...$]: Python's [$] also matches just
    before a final newline. *)
Definition is_valid_email (email : string) : bool :=
  negb (String.eqb email "") &&
  (email_full_match email ||
   match split_last newline email with
   | Some (body, EmptyString) => email_full_match body
   | _ => false
   end).

Definition is_valid_password (password : string) : bool :=
  negb (String.eqb password "") &&
  (6 <=? String.length password) && (String.length password <=? 128).

(* ------------------------------------------------------------------ *)
(** ** The User entity ([user_entity.py]) *)

Record User := mkUser {
  id : string;
  email : string;
  password_hash : string;
  is_active : bool;
  created_at : nat;
  updated_at : nat
}.

(** [user.email], for functions whose parameter is also called [email]. *)
Definition user_email (u : User) : string := email u.

(** [User.create_new_user]: a fresh [uuid4] (here the argument [new_id]),
    active, both timestamps [now]. *)
Definition create_new_user (new_id : string) (now : nat) (email password_hash : string) : User :=
  mkUser new_id email password_hash true now now.

Definition deactivate (now : nat) (u : User) : User :=
  mkUser (id u) (email u) (password_hash u) false (created_at u) now.

Definition activate (now : nat) (u : User) : User :=
  mkUser (id u) (email u) (password_hash u) true (created_at u) now.

(** The methods of class [User] that mutate the entity, by name. The class
    defines [to_dict], [from_dict], [create_new_user], [deactivate] and
    [activate]; only the last two change a user. *)
Definition user_mutator (name : string) : option (list string -> nat -> User -> User) :=
  if String.eqb name "deactivate" then Some (fun _ now u => deactivate now u)
  else if String.eqb name "activate" then Some (fun _ now u => activate now u)
  else None.

Definition user_eqb (a b : User) : bool :=
  String.eqb (id a) (id b) && String.eqb (email a) (email b)
  && String.eqb (password_hash a) (password_hash b)
  && Bool.eqb (is_active a) (is_active b)
  && Nat.eqb (created_at a) (created_at b) && Nat.eqb (updated_at a) (updated_at b).

(* ------------------------------------------------------------------ *)
(** ** Exceptions ([core/exceptions.py], builtins and FastAPI's HTTPException) *)

Inductive Exc :=
| ValidationException (message field : string)
| AuthorizationException (message : string)
| NotFoundException (resource identifier : string)
| UserNotFoundException (identifier : string)
| ConflictException (message resource : string)
| UserAlreadyExistsException (email : string)
| BusinessRuleException (message rule : string)
| UserInactiveException (user_id : string)
| InfrastructureException (message component : string)
| InvalidCredentialsException
| ValueError (message : string)
| AttributeError (message : string)
| HTTPException (status_code : nat) (detail : string) (headers : list (string * string)).

(** [str(e)] for the exceptions whose text is re-wrapped by a caller. *)
Definition exc_str (e : Exc) : string :=
  match e with
  | ValidationException m _ | AuthorizationException m | ConflictException m _
  | BusinessRuleException m _ | InfrastructureException m _ | ValueError m
  | AttributeError m => m
  | NotFoundException r i => r ++ " con ID '" ++ i ++ "' no encontrado"
  | UserNotFoundException i => "Usuario con ID '" ++ i ++ "' no encontrado"
  | UserAlreadyExistsException e => "Usuario con email '" ++ e ++ "' ya existe"
  | UserInactiveException i => "Usuario con ID '" ++ i ++ "' está inactivo"
  | InvalidCredentialsException => "Email o contraseña incorrectos"
  | HTTPException _ d _ => d
  end.

(* ------------------------------------------------------------------ *)
(** ** Effects: the users collection threaded through a state and error monad

    The collection is the list of its documents in natural order (the order
    [find()] returns them in). A computation may raise; the collection it
    leaves behind is kept either way, as a database write is not undone by a
    later exception. *)

Definition Store := list User.

Definition M (A : Type) : Type := Store -> (Exc + A) * Store.

Definition ret {A} (a : A) : M A := fun s => (inr a, s).
Definition raise {A} (e : Exc) : M A := fun s => (inl e, s).
Definition bind {A B} (m : M A) (k : A -> M B) : M B :=
  fun s => match m s with
           | (inl e, s') => (inl e, s')
           | (inr a, s') => k a s'
           end.
(** [try: m except Exception as e: h(e)] *)
Definition catch {A} (m : M A) (h : Exc -> M A) : M A :=
  fun s => match m s with
           | (inl e, s') => h e s'
           | (inr a, s') => (inr a, s')
           end.

Notation "x <- c ;; k" := (bind c (fun x => k))
  (at level 61, c at next level, right associativity).
Notation "c ;;; k" := (bind c (fun _ => k)) (at level 61, right associativity).

(** [user.name(args)] on a [User]: the method of the class, or
    [AttributeError] when the class has no attribute of that name. *)
Definition call_user_method (name : string) (args : list string) (now : nat) (u : User) : M User :=
  match user_mutator name with
  | Some f => ret (f args now u)
  | None => raise (AttributeError ("'User' object has no attribute '" ++ name ++ "'"))
  end.

(* ------------------------------------------------------------------ *)
(** ** The repository: [UserModel] over [MongoClient], connected *)

Definition find_by_id (uid : string) (s : Store) : option User :=
  find (fun u => String.eqb (id u) uid) s.

(** [get_user_by_email] normalises its argument before [find_one]. *)
Definition find_by_email (e : string) (s : Store) : option User :=
  find (fun u => String.eqb (email u) (normalize_email e)) s.

Definition get_by_id (uid : string) : M (option User) :=
  fun s => (inr (find_by_id uid s), s).

Definition get_by_email (e : string) : M (option User) :=
  fun s => (inr (find_by_email e s), s).

(** [find({}).skip(skip).limit(limit)]; MongoDB reads [limit(0)] as no limit. *)
Definition get_all (skip limit : nat) : M (list User) :=
  fun s => (inr (if Nat.eqb limit 0 then skipn skip s else firstn limit (skipn skip s)), s).

(** [UserModel.create]: conflict check on the email, then [insert_one]. *)
Definition repo_create (u : User) : M User :=
  ex <- get_by_email (email u) ;;
  match ex with
  | Some _ => raise (ConflictException ("Usuario con email " ++ email u ++ " ya existe") "User")
  | None => fun s => (inr u, app s [u])
  end.

(** [replace_one({"id": u.id}, doc)] on the first matching document:
    [Some s'] when a document was modified, [None] when no document matched
    or the replacement equals the stored document ([modified_count == 0]). *)
Fixpoint replace_one (u : User) (s : Store) : option Store :=
  match s with
  | [] => None
  | v :: r =>
      if String.eqb (id v) (id u) then
        if user_eqb v u then None else Some (u :: r)
      else option_map (cons v) (replace_one u r)
  end.

(** [UserModel.update]: [MongoClient.update_user] stamps [updated_at] with
    [utcnow()] and replaces; a [False] becomes a [NotFoundException] that the
    surrounding [except Exception] turns into an [InfrastructureException]. *)
Definition repo_update (now : nat) (u : User) : M User :=
  let u' := mkUser (id u) (email u) (password_hash u) (is_active u) (created_at u) now in
  fun s => match replace_one u' s with
           | Some s' => (inr u', s')
           | None =>
               (inl (InfrastructureException
                       ("Error al actualizar usuario: " ++ exc_str (NotFoundException "Usuario" (id u)))
                       "database"), s)
           end.

Fixpoint delete_one (uid : string) (s : Store) : option Store :=
  match s with
  | [] => None
  | v :: r => if String.eqb (id v) uid then Some r else option_map (cons v) (delete_one uid r)
  end.

(** [UserModel.delete]: [delete_one({"id": user_id})]. *)
Definition repo_delete (uid : string) : M bool :=
  fun s => match delete_one uid s with
           | Some s' => (inr true, s')
           | None => (inl (NotFoundException "Usuario" uid), s)
           end.

(* ------------------------------------------------------------------ *)
(** ** Decimal and segment codecs *)

Fixpoint nat_to_string_aux (fuel n : nat) (acc : string) : string :=
  match fuel with
  | 0 => acc
  | S f =>
      let acc' := String (ascii_of_nat (48 + n mod 10)) acc in
      if n <? 10 then acc' else nat_to_string_aux f (n / 10) acc'
  end.

Definition nat_to_string (n : nat) : string := nat_to_string_aux (S n) n "".

(** Rust's [str.parse::<u32>()] on a run of decimal digits. *)
Fixpoint parse_digits (acc : nat) (s : string) : option nat :=
  match s with
  | EmptyString => Some acc
  | String c r => if is_digit c then parse_digits (acc * 10 + (nat_of_ascii c - 48)) r else None
  end.

Definition parse_cost (s : string) : option nat :=
  if String.eqb s "" then None else parse_digits 0 s.

(** [format!("{:02}", cost)] *)
Definition pad2 (n : nat) : string :=
  if n <? 10 then "0" ++ nat_to_string n else nat_to_string n.

(** [bytes.split(b'$')] *)
Fixpoint split_on (sep : ascii) (s : string) : list string :=
  match s with
  | EmptyString => [EmptyString]
  | String c r =>
      if Ascii.eqb c sep then EmptyString :: split_on sep r
      else match split_on sep r with
           | x :: xs => String c x :: xs
           | [] => [String c EmptyString]
           end
  end.

(** The bcrypt base64 alphabet [./A-Za-z0-9]. *)
Definition is_bcrypt_b64 (c : ascii) : bool :=
  is_letter c || is_digit c || Ascii.eqb c "." || Ascii.eqb c "/".

Definition valid_salt22 (s : string) : bool :=
  Nat.eqb (String.length s) 22 && str_forallb is_bcrypt_b64 s.

(** The shape of bcrypt's digest: 31 characters of its base64 alphabet. *)
Definition bcrypt_digest_ok (d : string) : bool :=
  Nat.eqb (String.length d) 31 && str_forallb is_bcrypt_b64 d.

(* ------------------------------------------------------------------ *)
(** ** Concrete primitives for running the model

    Stand-ins for HMAC-SHA256 and the bcrypt core, used only to evaluate the
    model on concrete inputs. The digest has bcrypt's shape: 31 characters of
    the bcrypt alphabet. *)

Definition toy_hmac (key msg : string) : string := key ++ "|" ++ msg.

Definition toy_b64_char (c : ascii) : ascii :=
  ascii_of_nat (97 + nat_of_ascii c mod 26).

Fixpoint toy_map (s : string) : string :=
  match s with
  | EmptyString => EmptyString
  | String c r => String (toy_b64_char c) (toy_map r)
  end.

Definition toy_eks (cost : nat) (salt pw : string) : string :=
  substring 0 31 (toy_map (str_rev pw) ++ "...............................").

(** Sample data for the concrete runs. *)
Definition demo_salt : string := "abcdefghijklmnopqrstuv".

Definition demo_hash : string := "$2b$12$" ++ demo_salt ++ toy_eks 12 demo_salt "secret1".

Definition demo_active : User := mkUser "u1" "ana@example.com" demo_hash true 0 0.

Definition demo_inactive : User := mkUser "u1" "ana@example.com" demo_hash false 0 5.

Definition demo_other : User := mkUser "u2" "bob@example.com" demo_hash true 0 0.

Definition demo_gone : User := mkUser "u3" "cy@example.com" demo_hash false 0 0.

(** [n] active users [u0], [u1], ... in insertion order. *)
Definition many_users (n : nat) : Store :=
  map (fun k => mkUser ("u" ++ nat_to_string k) ("user" ++ nat_to_string k ++ "@example.com") "h" true 0 0)
      (seq 0 n).

Fixpoint str_repeat (n : nat) (c : ascii) : string :=
  match n with
  | 0 => EmptyString
  | S k => String c (str_repeat k c)
  end.

(** Two passwords that agree on their first 72 bytes. *)
Definition long_pw_x : string := str_repeat 72 "a" ++ "x".
Definition long_pw_y : string := str_repeat 72 "a" ++ "y".

Section Auth.

(** The Blowfish key schedule and encryption of bcrypt ([bcrypt::hash_with_salt]
    without its formatting): cost, the 22 salt characters and the (truncated)
    password give the 31 digest characters. *)
Variable eks_blowfish : nat -> string -> string -> string.
(** HMAC-SHA256 of PyJWT's HS256: key, signing input, signature segment. *)
Variable hmac_sha256 : string -> string -> string.
(** [settings.JWT_SECRET_KEY] and [settings.JWT_EXPIRATION_TIME_MINUTES]
    are read from the environment. *)
Variable JWT_SECRET_KEY : string.
Variable JWT_EXPIRATION_TIME_MINUTES : nat.

Definition JWT_ALGORITHM : string := "HS256".

(* ------------------------------------------------------------------ *)
(** ** bcrypt 4.x ([pyca/bcrypt], [src/_bcrypt/src/lib.rs]) *)

(** [hashpw(password, salt)]: [None] is the [ValueError("Invalid salt")].
    The password is cut to 72 bytes; [salt] is split on ['$'] with empty parts
    dropped and must give version, cost and a 22- or 53-character part whose
    first 22 characters are the salt. *)
Definition hashpw (password salt : string) : option string :=
  let pw := substring 0 72 password in
  match filter (fun x => negb (String.eqb x "")) (split_on "$" salt) with
  | [v; c; rest] =>
      if existsb (String.eqb v) ["2y"; "2b"; "2a"; "2x"] then
        match parse_cost c with
        | Some cost =>
            if Nat.eqb (String.length rest) 22 || Nat.eqb (String.length rest) 53 then
              let s22 := substring 0 22 rest in
              if str_forallb is_bcrypt_b64 s22 && (4 <=? cost) && (cost <=? 31) then
                Some ("$" ++ v ++ "$" ++ pad2 cost ++ "$" ++ s22 ++ eks_blowfish cost s22 pw)
              else None
            else None
        | None => None
        end
      else None
  | _ => None
  end.

(** [gensalt()]: [b"$2b$12$"] and 22 random characters, here [salt22]. *)
Definition gensalt (salt22 : string) : string := "$2b$12$" ++ salt22.

(* ------------------------------------------------------------------ *)
(** ** PasswordHasher *)

Definition hash_password (salt22 password : string) : Exc + string :=
  if String.eqb password "" then inl (ValueError "Password no puede estar vacío")
  else match hashpw password (gensalt salt22) with
       | Some h => inr h
       | None => inl (ValueError "Invalid salt")
       end.

(** [checkpw] is [hashpw(password, hashed) == hashed]; its [ValueError] is
    caught and read as [False]. *)
Definition verify_password (password hashed_password : string) : bool :=
  if String.eqb password "" || String.eqb hashed_password "" then false
  else match hashpw password hashed_password with
       | Some r => String.eqb r hashed_password
       | None => false
       end.

(* ------------------------------------------------------------------ *)
(** ** PyJWT

    A token is the compact JWS [header.payload.signature]. Base64url and JSON
    matter here only as an invertible encoding of each segment, which is
    modelled by a length-prefixed layout: a field is its length in unary
    ([#]) and [:], then its bytes. *)

(** A claim value as [json.loads] returns it. A finite [float] is exactly
    [m * 2^e]. An array or an object is kept as its JSON text: nothing below
    looks inside one. Python's [json] also reads [Infinity], [-Infinity] and
    [NaN]. *)
Inductive JsonVal :=
| JNull
| JBool (b : bool)
| JInt (z : Z)
| JFloat (m e : Z)
| JInf (negative : bool)
| JNaN
| JStr (s : string)
| JArr (text : string)
| JObj (text : string).

(** The payload, known by the keys the code reads. A payload with other
    keys, among them PyJWT's other registered claims ([nbf], [aud], [iss],
    ...), is not modelled. [exp], [iat] and [type] may hold any JSON value.
    [user_id] and [email] are strings: the payload format below has no other
    value for them, so a payload that carries another JSON value there is one
    [dec_claims] refuses. [jwt.decode] and [verify_token] do not read these
    two keys, so this narrows the payloads [verify_token] can return, not
    what it raises. *)
Record Claims := mkClaims {
  claim_user_id : option string;
  claim_email : option string;
  claim_exp : option JsonVal;
  claim_iat : option JsonVal;
  claim_type : option JsonVal
}.

(** The outcome of Python's [int(v)]. *)
Inductive PyIntResult :=
| IntOk (z : Z)
| IntValueError
| IntTypeError
| IntOverflowError.

Definition digit_val (c : ascii) : Z := Z.of_nat (nat_of_ascii c - 48).

(** The digits after the first one; one underscore may stand between two digits. *)
Fixpoint int_digits (acc : Z) (s : string) : option Z :=
  match s with
  | EmptyString => Some acc
  | String c r =>
      if is_digit c then int_digits (acc * 10 + digit_val c)%Z r
      else if Ascii.eqb c "_" then
        match r with
        | String d r' => if is_digit d then int_digits (acc * 10 + digit_val d)%Z r' else None
        | EmptyString => None
        end
      else None
  end.

Definition int_unsigned (s : string) : option Z :=
  match s with
  | String c r => if is_digit c then int_digits (digit_val c) r else None
  | EmptyString => None
  end.

(** [int(s)] of a [str] in base 10: surrounding whitespace, an optional sign,
    then the digits; [None] is its [ValueError]. Taken on ASCII: [int] also
    reads the other Unicode decimal digits and strips the other Unicode
    spaces, and Python 3.11 and later refuse more than 4300 digits. Each of
    these only decides between a number and a [ValueError]. *)
Definition py_int_str (s : string) : option Z :=
  match py_strip s with
  | String c r =>
      if Ascii.eqb c "-" then option_map Z.opp (int_unsigned r)
      else if Ascii.eqb c "+" then int_unsigned r
      else int_unsigned (String c r)
  | EmptyString => None
  end.

(** [int(v)]: a [bool] is [0] or [1], a [float] is truncated towards zero;
    [int(None)], [int([...])] and [int({...})] raise [TypeError], an infinite
    [float] [OverflowError] and [nan] [ValueError]. *)
Definition py_int (v : JsonVal) : PyIntResult :=
  match v with
  | JNull => IntTypeError
  | JBool b => IntOk (if b then 1 else 0)%Z
  | JInt z => IntOk z
  | JFloat m e => IntOk (if (0 <=? e)%Z then m * 2 ^ e else Z.quot m (2 ^ (- e)))%Z
  | JInf _ => IntOverflowError
  | JNaN => IntValueError
  | JStr t => match py_int_str t with Some z => IntOk z | None => IntValueError end
  | JArr _ | JObj _ => IntTypeError
  end.

Record Header := mkHeader { hdr_alg : string; hdr_typ : string }.

Fixpoint unary (n : nat) : string :=
  match n with
  | 0 => EmptyString
  | S k => String "#" (unary k)
  end.

Definition enc_nat (n : nat) : string := unary n ++ ":".

Fixpoint dec_nat_aux (acc : nat) (s : string) : option (nat * string) :=
  match s with
  | EmptyString => None
  | String c r =>
      if Ascii.eqb c "#" then dec_nat_aux (S acc) r
      else if Ascii.eqb c ":" then Some (acc, r) else None
  end.

Definition dec_nat (s : string) : option (nat * string) := dec_nat_aux 0 s.

Fixpoint take (n : nat) (s : string) : option (string * string) :=
  match n with
  | 0 => Some (EmptyString, s)
  | S k =>
      match s with
      | EmptyString => None
      | String c r =>
          match take k r with
          | Some (a, b) => Some (String c a, b)
          | None => None
          end
      end
  end.

Definition enc_str (s : string) : string := enc_nat (String.length s) ++ s.

Definition dec_str (s : string) : option (string * string) :=
  match dec_nat s with
  | Some (n, r) => take n r
  | None => None
  end.

Definition enc_opt {A} (f : A -> string) (o : option A) : string :=
  match o with
  | None => "N"
  | Some a => "S" ++ f a
  end.

Definition dec_opt {A} (f : string -> option (A * string)) (s : string) : option (option A * string) :=
  match s with
  | String c r =>
      if Ascii.eqb c "N" then Some (None, r)
      else if Ascii.eqb c "S" then
        match f r with
        | Some (a, r') => Some (Some a, r')
        | None => None
        end
      else None
  | EmptyString => None
  end.

Definition enc_Z (z : Z) : string :=
  if (z <? 0)%Z then "-" ++ enc_nat (Z.to_nat (- z)) else "+" ++ enc_nat (Z.to_nat z).

Definition dec_Z (s : string) : option (Z * string) :=
  match s with
  | String c r =>
      if Ascii.eqb c "-" then
        match dec_nat r with Some (n, r') => Some ((- Z.of_nat n)%Z, r') | None => None end
      else if Ascii.eqb c "+" then
        match dec_nat r with Some (n, r') => Some (Z.of_nat n, r') | None => None end
      else None
  | EmptyString => None
  end.

Definition enc_json (v : JsonVal) : string :=
  match v with
  | JNull => "n"
  | JBool true => "t"
  | JBool false => "f"
  | JInt z => "i" ++ enc_Z z
  | JFloat m e => "d" ++ enc_Z m ++ enc_Z e
  | JInf true => "m"
  | JInf false => "p"
  | JNaN => "q"
  | JStr t => "s" ++ enc_str t
  | JArr t => "a" ++ enc_str t
  | JObj t => "o" ++ enc_str t
  end.

Definition dec_json (s : string) : option (JsonVal * string) :=
  match s with
  | String c r =>
      if Ascii.eqb c "n" then Some (JNull, r)
      else if Ascii.eqb c "t" then Some (JBool true, r)
      else if Ascii.eqb c "f" then Some (JBool false, r)
      else if Ascii.eqb c "i" then
        match dec_Z r with Some (z, r') => Some (JInt z, r') | None => None end
      else if Ascii.eqb c "d" then
        match dec_Z r with
        | Some (m, r') => match dec_Z r' with Some (e, r'') => Some (JFloat m e, r'') | None => None end
        | None => None
        end
      else if Ascii.eqb c "m" then Some (JInf true, r)
      else if Ascii.eqb c "p" then Some (JInf false, r)
      else if Ascii.eqb c "q" then Some (JNaN, r)
      else if Ascii.eqb c "s" then
        match dec_str r with Some (t, r') => Some (JStr t, r') | None => None end
      else if Ascii.eqb c "a" then
        match dec_str r with Some (t, r') => Some (JArr t, r') | None => None end
      else if Ascii.eqb c "o" then
        match dec_str r with Some (t, r') => Some (JObj t, r') | None => None end
      else None
  | EmptyString => None
  end.

Definition enc_claims (c : Claims) : string :=
  enc_opt enc_str (claim_user_id c) ++ enc_opt enc_str (claim_email c)
  ++ enc_opt enc_json (claim_exp c) ++ enc_opt enc_json (claim_iat c)
  ++ enc_opt enc_json (claim_type c).

Definition dec_claims (s : string) : option Claims :=
  match dec_opt dec_str s with
  | Some (u, r1) =>
  match dec_opt dec_str r1 with
  | Some (e, r2) =>
  match dec_opt dec_json r2 with
  | Some (x, r3) =>
  match dec_opt dec_json r3 with
  | Some (i, r4) =>
  match dec_opt dec_json r4 with
  | Some (t, EmptyString) => Some (mkClaims u e x i t)
  | _ => None
  end
  | None => None end
  | None => None end
  | None => None end
  | None => None end.

Definition enc_header (h : Header) : string := enc_str (hdr_alg h) ++ enc_str (hdr_typ h).

Definition dec_header (s : string) : option Header :=
  match dec_str s with
  | Some (a, r) =>
      match dec_str r with
      | Some (t, EmptyString) => Some (mkHeader a t)
      | _ => None
      end
  | None => None
  end.

(** Splitting the compact form into its three segments. *)
Definition parse_jws (token : string) : option (string * string * string) :=
  match dec_str token with
  | Some (hs, r1) =>
      match dec_str r1 with
      | Some (ps, r2) =>
          match dec_str r2 with
          | Some (sg, EmptyString) => Some (hs, ps, sg)
          | _ => None
          end
      | None => None
      end
  | None => None
  end.

Definition signing_input (hs ps : string) : string := enc_str hs ++ enc_str ps.

(** [jwt.encode(payload, key, algorithm)] *)
Definition jwt_encode (c : Claims) (key alg : string) : string :=
  let hs := enc_header (mkHeader alg "JWT") in
  let ps := enc_claims c in
  signing_input hs ps ++ enc_str (hmac_sha256 key (signing_input hs ps)).

(** The exceptions [jwt.decode] raises: PyJWT's own, and the [TypeError] and
    [OverflowError] of [int] on a claim, which it lets through. *)
Inductive JwtError :=
| DecodeError
| InvalidSignatureError
| InvalidAlgorithmError
| ExpiredSignatureError
| ImmatureSignatureError
| InvalidIssuedAtError
| TypeError
| OverflowError.

(** PyJWT's hierarchy: each of its own exceptions derives from
    [InvalidTokenError] ([InvalidSignatureError] through [DecodeError]). *)
Definition is_InvalidTokenError (e : JwtError) : bool :=
  match e with
  | DecodeError | InvalidSignatureError | InvalidAlgorithmError
  | ExpiredSignatureError | ImmatureSignatureError | InvalidIssuedAtError => true
  | TypeError | OverflowError => false
  end.

Definition is_ExpiredSignatureError (e : JwtError) : bool :=
  match e with ExpiredSignatureError => true | _ => false end.

(** [_validate_iat]: [int(payload["iat"])], whose [ValueError] becomes
    [InvalidIssuedAtError] ([ImmatureSignatureError] in older PyJWT, also an
    [InvalidTokenError]); [iat > now] is not yet valid. *)
Definition validate_iat (now : nat) (v : JsonVal) : option JwtError :=
  match py_int v with
  | IntOk i => if (Z.of_nat now <? i)%Z then Some ImmatureSignatureError else None
  | IntValueError => Some InvalidIssuedAtError
  | IntTypeError => Some TypeError
  | IntOverflowError => Some OverflowError
  end.

(** [_validate_exp]: [int(payload["exp"])], whose [ValueError] becomes
    [DecodeError]; [exp <= now] is expired. *)
Definition validate_exp (now : nat) (v : JsonVal) : option JwtError :=
  match py_int v with
  | IntOk e => if (e <=? Z.of_nat now)%Z then Some ExpiredSignatureError else None
  | IntValueError => Some DecodeError
  | IntTypeError => Some TypeError
  | IntOverflowError => Some OverflowError
  end.

(** [_validate_claims] at time [now] (leeway 0): [iat] if present, then
    [exp] if present. [now] is the current time in whole seconds: against an
    integer claim, PyJWT's fractional [now] compares the same way. *)
Definition validate_claims (now : nat) (c : Claims) : JwtError + Claims :=
  match match claim_iat c with Some v => validate_iat now v | None => None end with
  | Some err => inl err
  | None =>
      match claim_exp c with
      | Some v => match validate_exp now v with Some err => inl err | None => inr c end
      | None => inr c
      end
  end.

(** [jwt.decode(token, key, algorithms=...)] at time [now]: segments,
    allowed algorithm, signature, payload, then the claims. *)
Definition jwt_decode (token key : string) (algorithms : list string) (now : nat) : JwtError + Claims :=
  match parse_jws token with
  | None => inl DecodeError
  | Some (hs, ps, sg) =>
      match dec_header hs with
      | None => inl DecodeError
      | Some h =>
          if negb (existsb (String.eqb (hdr_alg h)) algorithms) then inl InvalidAlgorithmError
          else if negb (String.eqb sg (hmac_sha256 key (signing_input hs ps))) then inl InvalidSignatureError
          else match dec_claims ps with
               | None => inl DecodeError
               | Some c => validate_claims now c
               end
      end
  end.

(* ------------------------------------------------------------------ *)
(** ** JWTHandler *)

Definition access_claims (now : nat) (user_id email : string) : Claims :=
  mkClaims (Some user_id) (Some email) (Some (JInt (Z.of_nat (now + JWT_EXPIRATION_TIME_MINUTES * 60))))
           (Some (JInt (Z.of_nat now))) (Some (JStr "access")).

Definition create_access_token (now : nat) (user_id email : string) : string :=
  jwt_encode (access_claims now user_id email) JWT_SECRET_KEY JWT_ALGORITHM.

(** [verify_token]: [inr] is the returned [Optional[dict]], [inl] an exception
    that escapes the two [except] clauses. *)
Definition verify_token (now : nat) (token : string) : JwtError + option Claims :=
  match jwt_decode token JWT_SECRET_KEY [JWT_ALGORITHM] now with
  | inr payload =>
      match claim_type payload with
      | Some (JStr t) => if String.eqb t "access" then inr (Some payload) else inr None
      | _ => inr None
      end
  | inl e =>
      if is_ExpiredSignatureError e then inr None
      else if is_InvalidTokenError e then inr None
      else inl e
  end.

(* ------------------------------------------------------------------ *)
(** ** SecurityService.get_current_user *)

Definition credentials_exception : Exc :=
  HTTPException 401 "Could not validate credentials" [("WWW-Authenticate", "Bearer")].

Definition inactive_user_exception : Exc := HTTPException 401 "Inactive user" [].

Definition get_current_user (now : nat) (credentials : string) : M User :=
  match verify_token now credentials with
  | inl _ => raise credentials_exception
  | inr None => raise credentials_exception
  | inr (Some payload) =>
      match claim_user_id payload with
      | None => raise credentials_exception
      | Some user_id =>
          user <- get_by_id user_id ;;
          match user with
          | None => raise credentials_exception
          | Some user =>
              if negb (is_active user) then raise inactive_user_exception
              else ret user
          end
      end
  end.

(* ------------------------------------------------------------------ *)
(** ** CreateUserUseCase.execute *)

Definition validate_input (email password : string) : M unit :=
  if is_blank email then raise (ValidationException "Email es requerido" "email")
  else if is_blank password then raise (ValidationException "Contraseña es requerida" "password")
  else if negb (is_valid_email email) then raise (ValidationException "Formato de email inválido" "email")
  else if negb (is_valid_password password) then
    raise (ValidationException "La contraseña debe tener entre 6 y 128 caracteres" "password")
  else ret tt.

(** [new_id] and [salt22] are the values of [uuid4()] and [gensalt()]. *)
Definition create_user (now : nat) (new_id salt22 email password : string) : M User :=
  validate_input email password ;;;
  let email := normalize_email email in
  existing_user <- get_by_email email ;;
  match existing_user with
  | Some _ => raise (UserAlreadyExistsException email)
  | None =>
      password_hash <-
        (match hash_password salt22 password with
         | inr h => ret h
         | inl e => raise (InfrastructureException ("Error al procesar contraseña: " ++ exc_str e) "password_hasher")
         end) ;;
      let new_user := create_new_user new_id now email password_hash in
      catch (repo_create new_user)
            (fun e => raise (InfrastructureException ("Error al crear usuario: " ++ exc_str e) "database"))
  end.

(* ------------------------------------------------------------------ *)
(** ** LoginUserUseCase.execute *)

Definition login_user (now : nat) (email password : string) : M (string * User) :=
  if is_blank email then raise (ValidationException "Email es requerido" "email")
  else if is_blank password then raise (ValidationException "Contraseña es requerida" "password")
  else if negb (is_valid_email email) then raise (ValidationException "Formato de email inválido" "email")
  else
    let normalized := normalize_email email in
    user <- get_by_email normalized ;;
    match user with
    | None => raise InvalidCredentialsException
    | Some user =>
        if negb (is_active user) then raise (UserInactiveException (id user))
        else if negb (verify_password password (password_hash user)) then raise InvalidCredentialsException
        else ret (create_access_token now (id user) (user_email user), user)
    end.

(* ------------------------------------------------------------------ *)
(** ** ListUsersUseCase *)

Definition count_active (l : list User) : nat := length (filter is_active l).

(** [_count_active_users]: [get_all(skip=0, limit=1000)], active ones counted. *)
Definition count_active_users : M nat :=
  all_users <- get_all 0 1000 ;;
  ret (count_active all_users).

Definition list_users (requesting_user_id : string) (skip limit : Z) : M (list User * nat) :=
  if is_blank requesting_user_id then raise (ValueError "Requesting user ID es requerido")
  else if (skip <? 0)%Z then raise (ValueError "Skip debe ser mayor o igual a 0")
  else if ((limit <? 1) || (100 <? limit))%Z then raise (ValueError "Limit debe estar entre 1 y 100")
  else
    requesting_user <- get_by_id requesting_user_id ;;
    match requesting_user with
    | Some ru =>
        if negb (is_active ru) then raise (ValueError "Usuario no autorizado")
        else
          users <- get_all (Z.to_nat skip) (Z.to_nat limit) ;;
          let active_users := filter is_active users in
          total_users <- count_active_users ;;
          ret (active_users, total_users)
    | None => raise (ValueError "Usuario no autorizado")
    end.

(* ------------------------------------------------------------------ *)
(** ** UpdateUserUseCase.execute *)

Definition update_user_email (now : nat) (user : User) (new_email : string) : M User :=
  if negb (is_valid_email new_email) then
    raise (ValidationException "El formato del email es inválido" "email")
  else
    let new_email := normalize_email new_email in
    existing_user <- get_by_email new_email ;;
    match existing_user with
    | Some ex =>
        if negb (String.eqb (id ex) (id user)) then
          raise (ConflictException ("El email " ++ new_email ++ " ya está en uso por otro usuario") "User")
        else call_user_method "update_email" [new_email] now user
    | None => call_user_method "update_email" [new_email] now user
    end.

Definition update_user_password (now : nat) (salt22 : string) (user : User) (new_password : string) : M User :=
  if negb (is_valid_password new_password) then
    raise (ValidationException "La contraseña debe tener entre 6 y 128 caracteres" "password")
  else
    match hash_password salt22 new_password with
    | inl e => raise e
    | inr new_password_hash => call_user_method "update_password_hash" [new_password_hash] now user
    end.

Definition update_user (now : nat) (salt22 : string) (user_id requesting_user_id : string)
    (new_email new_password : option string) : M User :=
  if is_blank user_id then raise (ValidationException "User ID es requerido" "user_id")
  else if is_blank requesting_user_id then
    raise (ValidationException "Requesting user ID es requerido" "requesting_user_id")
  else if negb (truthy new_email) && negb (truthy new_password) then
    raise (BusinessRuleException "Debe proporcionar al menos un campo para actualizar" "update_fields_required")
  else
    requesting_user <- get_by_id requesting_user_id ;;
    match requesting_user with
    | None => raise (AuthorizationException "Usuario solicitante no encontrado")
    | Some ru =>
        if negb (is_active ru) then raise (UserInactiveException requesting_user_id)
        else if negb (String.eqb user_id requesting_user_id) then
          raise (AuthorizationException "No tienes permisos para actualizar este usuario")
        else
          user <- get_by_id user_id ;;
          match user with
          | None => raise (UserNotFoundException user_id)
          | Some user =>
              if negb (is_active user) then raise (UserInactiveException user_id)
              else
                user <- (match new_email with
                         | Some e => if truthy new_email then update_user_email now user e else ret user
                         | None => ret user
                         end) ;;
                user <- (match new_password with
                         | Some p => if truthy new_password then update_user_password now salt22 user p else ret user
                         | None => ret user
                         end) ;;
                repo_update now user
          end
    end.

(* ------------------------------------------------------------------ *)
(** ** DeleteUserUseCase *)

Definition execute_soft_delete (now : nat) (user_id requesting_user_id : string) : M User :=
  if is_blank user_id then raise (ValueError "User ID es requerido")
  else if is_blank requesting_user_id then raise (ValueError "Requesting user ID es requerido")
  else if negb (String.eqb user_id requesting_user_id) then
    raise (ValueError "No tienes permisos para eliminar este usuario")
  else
    user <- get_by_id user_id ;;
    match user with
    | None => raise (ValueError "Usuario no encontrado")
    | Some user =>
        if negb (is_active user) then raise (ValueError "Usuario ya está inactivo")
        else
          user <- call_user_method "deactivate" [] now user ;;
          repo_update now user
    end.

Definition execute_hard_delete (user_id requesting_user_id : string) : M string :=
  if is_blank user_id then raise (ValueError "User ID es requerido")
  else if is_blank requesting_user_id then raise (ValueError "Requesting user ID es requerido")
  else if negb (String.eqb user_id requesting_user_id) then
    raise (ValueError "No tienes permisos para eliminar este usuario")
  else
    user <- get_by_id user_id ;;
    match user with
    | None => raise (ValueError "Usuario no encontrado")
    | Some _ => repo_delete user_id ;;; ret user_id
    end.

Definition reactivate_user (now : nat) (user_id requesting_user_id : string) : M User :=
  if is_blank user_id then raise (ValueError "User ID es requerido")
  else if is_blank requesting_user_id then raise (ValueError "Requesting user ID es requerido")
  else if negb (String.eqb user_id requesting_user_id) then
    raise (ValueError "No tienes permisos para reactivar este usuario")
  else
    user <- get_by_id user_id ;;
    match user with
    | None => raise (ValueError "Usuario no encontrado")
    | Some user =>
        if is_active user then raise (ValueError "Usuario ya está activo")
        else
          user <- call_user_method "activate" [] now user ;;
          repo_update now user
    end.

(* ------------------------------------------------------------------ *)
(** ** JWTHandler: the other helpers *)



(** [is_token_expired]: [False] when [jwt.decode] returns, [True] on
    [ExpiredSignatureError] or any other [InvalidTokenError]. *)
Definition is_token_expired (now : nat) (token : string) : JwtError + bool :=
  match jwt_decode token JWT_SECRET_KEY [JWT_ALGORITHM] now with
  | inr _ => inr false
  | inl e =>
      if is_ExpiredSignatureError e then inr true
      else if is_InvalidTokenError e then inr true
      else inl e
  end.

(* ------------------------------------------------------------------ *)
(** ** SecurityService: the other dependencies *)

Definition get_current_active_user (current_user : User) : M User :=
  if negb (is_active current_user) then raise (HTTPException 400 "Inactive user" [])
  else ret current_user.

(** [Depends(get_current_active_user)], which itself depends on
    [get_current_user]: the dependency every route of [user_routes.py] but
    registration and login declares. *)
Definition current_active_user (now : nat) (credentials : string) : M User :=
  current_user <- get_current_user now credentials ;;
  get_current_active_user current_user.


(* ------------------------------------------------------------------ *)
(** ** LoginUserUseCase.validate_credentials *)

Definition validate_credentials (now : nat) (email password : string) : M bool :=
  catch (login_user now email password ;;; ret true)
        (fun e => match e with
                  | InvalidCredentialsException | UserInactiveException _
                  | ValidationException _ _ => ret false
                  | _ => raise e
                  end).

(* ------------------------------------------------------------------ *)
(** ** CreateUserUseCase.check_email_availability *)


(* ------------------------------------------------------------------ *)
(** ** ListUsersUseCase.execute_by_admin *)

(** [UserModel.count]: [count_documents({})]. *)
Definition count_users : M nat := fun s => (inr (length s), s).

Definition list_users_by_admin (skip limit : Z) (include_inactive : bool) : M (list User * nat) :=
  if (skip <? 0)%Z then raise (ValueError "Skip debe ser mayor o igual a 0")
  else if ((limit <? 1) || (100 <? limit))%Z then raise (ValueError "Limit debe estar entre 1 y 100")
  else
    all_users <- get_all (Z.to_nat skip) (Z.to_nat limit) ;;
    if include_inactive then
      total <- count_users ;;
      ret (all_users, total)
    else
      total <- count_active_users ;;
      ret (filter is_active all_users, total).

(* ------------------------------------------------------------------ *)
(** ** GetUserByIdUseCase *)

(** [urllib.parse.unquote] on [str]: percent-decoding, which never raises. *)
Variable url_unquote : string -> string.

Fixpoint lstrip_by (f : ascii -> bool) (s : string) : string :=
  match s with
  | EmptyString => EmptyString
  | String c r => if f c then lstrip_by f r else s
  end.

(** [str.strip(chars)] *)
Definition strip_by (f : ascii -> bool) (s : string) : string :=
  str_rev (lstrip_by f (str_rev (lstrip_by f s))).

(** The characters removed by [strip] in [_sanitize_user_id]: the double
    quote (34) and the single quote (39). *)
Definition is_quote (c : ascii) : bool :=
  let n := nat_of_ascii c in (n =? 34) || (n =? 39).

Definition sanitize_user_id (user_id : string) : string :=
  if String.eqb user_id "" then user_id
  else py_strip (strip_by is_quote (url_unquote user_id)).

(** The exception classes each method re-raises unchanged. *)
Definition execute_reraises (e : Exc) : bool :=
  match e with
  | ValidationException _ _ | UserNotFoundException _ | UserInactiveException _
  | AuthorizationException _ => true
  | _ => false
  end.

Definition own_profile_reraises (e : Exc) : bool :=
  match e with
  | ValidationException _ _ | UserNotFoundException _ | UserInactiveException _ => true
  | _ => false
  end.

Definition by_admin_reraises (e : Exc) : bool :=
  match e with
  | ValidationException _ _ | UserNotFoundException _ => true
  | _ => false
  end.

(** [ValidationException(message)] with its [field] left at [None], written [""]. *)
Definition wrap_unexpected (reraises : Exc -> bool) (prefix : string) (e : Exc) : M User :=
  if reraises e then raise e else raise (ValidationException (prefix ++ exc_str e) "").

Definition get_user_by_id_execute (user_id requesting_user_id : string) : M User :=
  catch
    (let user_id := sanitize_user_id user_id in
     (if is_blank user_id then raise (ValidationException "User ID es requerido" "user_id")
      else if is_blank requesting_user_id then
        raise (ValidationException "Requesting user ID es requerido" "requesting_user_id")
      else ret tt) ;;;
     requesting_user <- get_by_id requesting_user_id ;;
     match requesting_user with
     | None => raise (AuthorizationException "Usuario solicitante no encontrado")
     | Some ru =>
         if negb (is_active ru) then raise (UserInactiveException requesting_user_id)
         else
           user <- get_by_id user_id ;;
           match user with
           | None => raise (UserNotFoundException user_id)
           | Some user =>
               if negb (is_active user) then raise (UserNotFoundException user_id)
               else ret user
           end
     end)
    (wrap_unexpected execute_reraises "Error interno al obtener usuario: ").

Definition execute_own_profile (user_id : string) : M User :=
  catch
    (let user_id := sanitize_user_id user_id in
     if is_blank user_id then raise (ValidationException "User ID es requerido" "user_id")
     else
       user <- get_by_id user_id ;;
       match user with
       | None => raise (UserNotFoundException user_id)
       | Some user =>
           if negb (is_active user) then raise (UserInactiveException user_id)
           else ret user
       end)
    (wrap_unexpected own_profile_reraises "Error interno al obtener perfil: ").

Definition execute_by_admin (user_id : string) : M User :=
  catch
    (let user_id := sanitize_user_id user_id in
     if is_blank user_id then raise (ValidationException "User ID es requerido" "user_id")
     else
       user <- get_by_id user_id ;;
       match user with
       | None => raise (UserNotFoundException user_id)
       | Some user => ret user
       end)
    (wrap_unexpected by_admin_reraises "Error interno al obtener usuario: ").

(* ------------------------------------------------------------------ *)
(** ** The routes of [user_routes.py] that act on a [user_id]

    Each route body runs under [try: ... except ValueError as e: ...
    except Exception: ...]. A [ValueError] is answered by the words of its
    message: 404, 403, else 400; every other exception, an [HTTPException]
    raised in the body included, becomes a 500. The dependencies run before
    the body, outside that [try]. *)

(** [needle in haystack] on [str] *)
Fixpoint str_contains (needle hay : string) : bool :=
  String.prefix needle hay ||
  match hay with
  | String _ r => str_contains needle r
  | EmptyString => false
  end.

Definition internal_server_error : Exc := HTTPException 500 "Error interno del servidor" [].

(** [str(e).lower()] is taken byte-wise on ASCII letters. For these ASCII
    needles this agrees with [str.lower()]: the only characters outside ASCII
    whose lower case contains an ASCII letter are U+212A (to [k]) and U+0130
    (to [i] and U+0307), and neither completes a match. *)
Definition route_error (e : Exc) : Exc :=
  match e with
  | ValueError m =>
      let l := py_lower m in
      if str_contains "no encontrado" l || str_contains "not found" l then HTTPException 404 m []
      else if str_contains "permisos" l || str_contains "permission" l then HTTPException 403 m []
      else HTTPException 400 m []
  | _ => internal_server_error
  end.

Definition route_guard {A} (body : M A) : M A := catch body (fun e => raise (route_error e)).

(** A route whose [try] has only [except ValueError]: other exceptions
    propagate unchanged. *)
Definition route_guard_value {A} (body : M A) : M A :=
  catch body (fun e => match e with ValueError _ => raise (route_error e) | _ => raise e end).

(** The Python values the [GET /{user_id}] route handles: a [User] entity or
    a [dict], known by its keys. *)
Inductive PyObj :=
| PyUser (u : User)
| PyDict (keys : list string).

(** [UserMapper.create_user_detail_response]: a [User] is always truthy. *)
Definition create_user_detail_response (user : User) : PyObj := PyDict ["user"; "message"].

(** [user_to_response]: [None] for a falsy argument, else a [UserResponse]
    built from [user.id], [user.email], ...; a [dict] has no attribute [id]. *)
Definition user_to_response (user : PyObj) : M (option User) :=
  match user with
  | PyUser u => ret (Some u)
  | PyDict [] => ret None
  | PyDict _ => raise (AttributeError "'dict' object has no attribute 'id'")
  end.

(** [GET /{user_id}]: [UserController.get_user_by_id] then [user_to_response]. *)
Definition get_user_by_id_route (now : nat) (credentials user_id : string) : M (option User) :=
  current_user <- current_active_user now credentials ;;
  route_guard (user <- (u <- get_user_by_id_execute user_id (id current_user) ;;
                        ret (create_user_detail_response u)) ;;
               user_to_response user).

(** [PUT /{user_id}] with the request's [email] and [password]. *)
Definition update_user_route (now : nat) (salt22 credentials user_id : string)
    (new_email new_password : option string) : M User :=
  current_user <- current_active_user now credentials ;;
  route_guard (update_user now salt22 user_id (id current_user) new_email new_password).

(** [DELETE /{user_id}]: the response's [deleted_id] is [user.id]. *)
Definition deactivate_user_route (now : nat) (credentials user_id : string) : M string :=
  current_user <- current_active_user now credentials ;;
  route_guard (user <- execute_soft_delete now user_id (id current_user) ;; ret (id user)).


(** [POST /{user_id}/reactivate] *)
Definition reactivate_user_route (now : nat) (credentials user_id : string) : M User :=
  current_user <- current_active_user now credentials ;;
  route_guard_value (reactivate_user now user_id (id current_user)).

(* ------------------------------------------------------------------ *)
(** ** The administrator variants of the update and delete use cases *)

(** [DeleteUserUseCase.execute_by_admin_soft] *)
Definition execute_by_admin_soft (now : nat) (user_id : string) : M User :=
  if is_blank user_id then raise (ValueError "User ID es requerido")
  else
    user <- get_by_id user_id ;;
    match user with
    | None => raise (ValueError "Usuario no encontrado")
    | Some user =>
        if negb (is_active user) then raise (ValueError "Usuario ya está inactivo")
        else
          user <- call_user_method "deactivate" [] now user ;;
          repo_update now user
    end.

(** [DeleteUserUseCase.execute_by_admin_hard] *)
Definition execute_by_admin_hard (user_id : string) : M string :=
  if is_blank user_id then raise (ValueError "User ID es requerido")
  else
    user <- get_by_id user_id ;;
    match user with
    | None => raise (ValueError "Usuario no encontrado")
    | Some _ => repo_delete user_id ;;; ret user_id
    end.

(** [UpdateUserUseCase.execute_by_admin]; [is_active_opt] is its parameter
    [is_active], [None] when not given. *)
Definition update_user_by_admin (now : nat) (salt22 user_id : string)
    (new_email new_password : option string) (is_active_opt : option bool) : M User :=
  if is_blank user_id then raise (ValidationException "User ID es requerido" "user_id")
  else if negb (truthy new_email) && negb (truthy new_password)
          && match is_active_opt with None => true | Some _ => false end then
    raise (BusinessRuleException "Debe proporcionar al menos un campo para actualizar" "update_fields_required")
  else
    user <- get_by_id user_id ;;
    match user with
    | None => raise (UserNotFoundException user_id)
    | Some user =>
        user <- (match new_email with
                 | Some e => if truthy new_email then update_user_email now user e else ret user
                 | None => ret user
                 end) ;;
        user <- (match new_password with
                 | Some p => if truthy new_password then update_user_password now salt22 user p else ret user
                 | None => ret user
                 end) ;;
        user <- (match is_active_opt with
                 | Some b => if b then call_user_method "activate" [] now user
                             else call_user_method "deactivate" [] now user
                 | None => ret user
                 end) ;;
        repo_update now user
    end.

(* ------------------------------------------------------------------ *)
(** ** Auxiliary views used by the proofs *)

(** A string that does not start with whitespace. *)
Definition starts_ns (s : string) : Prop :=
  match s with
  | String c _ => is_space c = false
  | EmptyString => True
  end.

(** What [verify_token] makes of the result of [jwt.decode]. *)
Definition access_payload (r : JwtError + Claims) : option Claims :=
  match r with
  | inr payload =>
      match claim_type payload with
      | Some (JStr t) => if String.eqb t "access" then Some payload else None
      | _ => None
      end
  | inl _ => None
  end.


(** Every stored email is in normal form and no two users share one: what
    the unique index on [email] and the normalisation in the use cases keep. *)
Definition emails_normalized_unique (s : Store) : Prop :=
  Forall (fun u => normalize_email (email u) = email u) s /\ NoDup (map email s).

(* ================================================================== *)
(** * Properties *)

(** ** Strings *)

Lemma str_app_assoc (a b c : string) : (a ++ b) ++ c = a ++ (b ++ c).
Proof. induction a as [|x a IH]; simpl; [reflexivity | now rewrite IH]. Qed.

Lemma str_app_nil_r (a : string) : a ++ "" = a.
Proof. induction a as [|x a IH]; simpl; [reflexivity | now rewrite IH]. Qed.

Lemma str_length_app (a b : string) : String.length (a ++ b) = String.length a + String.length b.
Proof. induction a as [|x a IH]; simpl; auto. Qed.

Lemma str_rev_app (a b : string) : str_rev (a ++ b) = str_rev b ++ str_rev a.
Proof.
  induction a as [|x a IH]; simpl.
  - now rewrite str_app_nil_r.
  - now rewrite IH, str_app_assoc.
Qed.

Lemma str_rev_involutive (s : string) : str_rev (str_rev s) = s.
Proof.
  induction s as [|x s IH]; simpl; [reflexivity|].
  now rewrite str_rev_app, IH.
Qed.

Lemma str_app_inj_l (a b c d : string) :
  a ++ b = c ++ d -> String.length a = String.length c -> a = c /\ b = d.
Proof.
  revert c. induction a as [|x a IH]; intros [|y c] E L; simpl in *; try discriminate.
  - auto.
  - injection E as -> E. destruct (IH c E) as [-> ->]; auto.
Qed.

Lemma str_eqb_app_l (p a b : string) : String.eqb (p ++ a) (p ++ b) = String.eqb a b.
Proof.
  destruct (String.eqb_spec a b) as [->|N].
  - apply String.eqb_refl.
  - apply String.eqb_neq. intros E. apply N.
    apply (str_app_inj_l p a p b E eq_refl).
Qed.

Lemma substring_prefix (n : nat) (a b : string) :
  String.length a = n -> substring 0 n (a ++ b) = a.
Proof.
  revert n. induction a as [|x a IH]; intros n L; simpl in *; subst.
  - destruct b; reflexivity.
  - f_equal. now apply IH.
Qed.

Lemma str_forallb_app (f : ascii -> bool) (a b : string) :
  str_forallb f (a ++ b) = str_forallb f a && str_forallb f b.
Proof. induction a as [|x a IH]; simpl; [reflexivity|]. now rewrite IH, andb_assoc. Qed.

(** ** Email normalisation is idempotent *)

Lemma lstrip_starts_ns (s : string) : starts_ns (lstrip s).
Proof.
  induction s as [|c s IH]; simpl; [exact I|].
  destruct (is_space c) eqn:E; [exact IH | exact E].
Qed.

Lemma lstrip_id (s : string) : starts_ns s -> lstrip s = s.
Proof. destruct s as [|c s]; simpl; [reflexivity|]. now intros ->. Qed.

Lemma lstrip_suffix (s : string) : exists p, s = p ++ lstrip s.
Proof.
  induction s as [|c s [p IH]]; simpl.
  - now exists "".
  - destruct (is_space c).
    + exists (String c p). simpl. now rewrite <- IH.
    + now exists "".
Qed.

Lemma lstrip_keeps_end (s : string) :
  starts_ns (str_rev s) -> starts_ns (str_rev (lstrip s)).
Proof.
  destruct (lstrip_suffix s) as [p Hp]. intros H.
  rewrite Hp, str_rev_app in H.
  destruct (str_rev (lstrip s)) as [|c r]; simpl in *; auto.
Qed.

Lemma py_strip_idem (s : string) : py_strip (py_strip s) = py_strip s.
Proof.
  unfold py_strip.
  set (y := lstrip (str_rev (lstrip s))).
  assert (Hs : starts_ns y) by apply lstrip_starts_ns.
  assert (He : starts_ns (str_rev y)).
  { apply lstrip_keeps_end. rewrite str_rev_involutive. apply lstrip_starts_ns. }
  rewrite (lstrip_id (str_rev y) He), str_rev_involutive, (lstrip_id y Hs).
  reflexivity.
Qed.

Lemma lower_char_idem (c : ascii) : lower_char (lower_char c) = lower_char c.
Proof. destruct c as [[] [] [] [] [] [] [] []]; reflexivity. Qed.

Lemma is_space_lower_char (c : ascii) : is_space (lower_char c) = is_space c.
Proof. destruct c as [[] [] [] [] [] [] [] []]; reflexivity. Qed.

Lemma py_lower_app (a b : string) : py_lower (a ++ b) = py_lower a ++ py_lower b.
Proof. induction a as [|x a IH]; simpl; [reflexivity | now rewrite IH]. Qed.

Lemma py_lower_rev (s : string) : py_lower (str_rev s) = str_rev (py_lower s).
Proof. induction s as [|x s IH]; simpl; [reflexivity|]. now rewrite py_lower_app, IH. Qed.

Lemma py_lower_lstrip (s : string) : py_lower (lstrip s) = lstrip (py_lower s).
Proof.
  induction s as [|x s IH]; simpl; [reflexivity|].
  rewrite is_space_lower_char. destruct (is_space x); [exact IH | reflexivity].
Qed.

Lemma py_lower_idem (s : string) : py_lower (py_lower s) = py_lower s.
Proof. induction s as [|x s IH]; simpl; [reflexivity|]. now rewrite lower_char_idem, IH. Qed.

Lemma py_lower_strip (s : string) : py_lower (py_strip s) = py_strip (py_lower s).
Proof. unfold py_strip. now rewrite py_lower_rev, py_lower_lstrip, py_lower_rev, py_lower_lstrip. Qed.

Lemma normalize_email_idem (e : string) : normalize_email (normalize_email e) = normalize_email e.
Proof.
  unfold normalize_email. now rewrite py_lower_strip, py_lower_idem, py_strip_idem.
Qed.

(** ** The token layout round-trips *)

Lemma dec_nat_aux_unary (n acc : nat) (r : string) :
  dec_nat_aux acc (unary n ++ ":" ++ r) = Some (acc + n, r).
Proof.
  revert acc. induction n as [|n IH]; intros acc; simpl.
  - now rewrite Nat.add_0_r.
  - rewrite IH. f_equal. f_equal. lia.
Qed.

Lemma dec_nat_enc (n : nat) (r : string) : dec_nat (enc_nat n ++ r) = Some (n, r).
Proof. unfold dec_nat, enc_nat. now rewrite str_app_assoc, dec_nat_aux_unary. Qed.

Lemma take_app (a b : string) : take (String.length a) (a ++ b) = Some (a, b).
Proof. induction a as [|x a IH]; simpl; [reflexivity|]. now rewrite IH. Qed.

Lemma dec_str_enc (s r : string) : dec_str (enc_str s ++ r) = Some (s, r).
Proof. unfold dec_str, enc_str. rewrite str_app_assoc, dec_nat_enc. apply take_app. Qed.

Lemma dec_opt_enc {A} (f : string -> option (A * string)) (g : A -> string) (o : option A) (r : string) :
  (forall a r', f (g a ++ r') = Some (a, r')) -> dec_opt f (enc_opt g o ++ r) = Some (o, r).
Proof. intros H. destruct o as [a|]; simpl; [now rewrite H | reflexivity]. Qed.

Lemma dec_Z_enc (z : Z) (r : string) : dec_Z (enc_Z z ++ r) = Some (z, r).
Proof.
  unfold dec_Z, enc_Z. destruct (Z.ltb_spec z 0); simpl; rewrite dec_nat_enc;
    do 2 f_equal; lia.
Qed.

Lemma dec_json_enc (v : JsonVal) (r : string) : dec_json (enc_json v ++ r) = Some (v, r).
Proof.
  destruct v as [|[|]|z|m e|[|]| |t|t|t]; simpl; rewrite ?str_app_assoc, ?dec_Z_enc, ?dec_str_enc;
    reflexivity.
Qed.

Lemma dec_claims_enc (c : Claims) : dec_claims (enc_claims c) = Some c.
Proof.
  destruct c as [u e x i t]. unfold dec_claims, enc_claims; cbn [claim_user_id claim_email claim_exp claim_iat claim_type].
  rewrite (dec_opt_enc dec_str enc_str) by apply dec_str_enc.
  rewrite (dec_opt_enc dec_str enc_str) by apply dec_str_enc.
  rewrite (dec_opt_enc dec_json enc_json) by apply dec_json_enc.
  rewrite (dec_opt_enc dec_json enc_json) by apply dec_json_enc.
  rewrite <- (str_app_nil_r (enc_opt enc_json t)).
  rewrite (dec_opt_enc dec_json enc_json) by apply dec_json_enc.
  reflexivity.
Qed.

Lemma dec_header_enc (h : Header) : dec_header (enc_header h) = Some h.
Proof.
  destruct h as [a t]. unfold dec_header, enc_header; simpl.
  rewrite dec_str_enc, <- (str_app_nil_r (enc_str t)), dec_str_enc. reflexivity.
Qed.

Lemma parse_jws_encode (c : Claims) (key alg : string) :
  parse_jws (jwt_encode c key alg) =
  Some (enc_header (mkHeader alg "JWT"), enc_claims c,
        hmac_sha256 key (signing_input (enc_header (mkHeader alg "JWT")) (enc_claims c))).
Proof.
  unfold parse_jws, jwt_encode, signing_input.
  rewrite !str_app_assoc, dec_str_enc, dec_str_enc.
  rewrite <- (str_app_nil_r (enc_str (hmac_sha256 _ _))), dec_str_enc.
  reflexivity.
Qed.

Lemma nat_Z_ltb (n m : nat) : (Z.of_nat n <? Z.of_nat m)%Z = (n <? m).
Proof. destruct (Z.ltb_spec (Z.of_nat n) (Z.of_nat m)), (Nat.ltb_spec n m); lia. Qed.

Lemma nat_Z_leb (n m : nat) : (Z.of_nat n <=? Z.of_nat m)%Z = (n <=? m).
Proof. destruct (Z.leb_spec (Z.of_nat n) (Z.of_nat m)), (Nat.leb_spec n m); lia. Qed.

(** The claims of an access token: issued at [now], expired from [now]
    plus the lifetime on. *)
Lemma validate_claims_access (now t : nat) (user_id email : string) :
  validate_claims t (access_claims now user_id email) =
  if t <? now then inl ImmatureSignatureError
  else if now + JWT_EXPIRATION_TIME_MINUTES * 60 <=? t then inl ExpiredSignatureError
  else inr (access_claims now user_id email).
Proof.
  unfold validate_claims, validate_iat, validate_exp. cbn [access_claims claim_iat claim_exp py_int].
  rewrite nat_Z_ltb, nat_Z_leb.
  destruct (t <? now); [reflexivity|]. destruct (_ <=? t); reflexivity.
Qed.


(** ** bcrypt *)

Lemma bcrypt_b64_not_dollar (c : ascii) : is_bcrypt_b64 c = true -> Ascii.eqb c "$" = false.
Proof. destruct c as [[] [] [] [] [] [] [] []]; simpl; intros H; first [reflexivity | discriminate]. Qed.

Lemma split_on_b64 (s : string) : str_forallb is_bcrypt_b64 s = true -> split_on "$" s = [s].
Proof.
  induction s as [|c s IH]; simpl; [reflexivity|].
  intros H. apply andb_prop in H as [Hc Hs].
  rewrite (bcrypt_b64_not_dollar c Hc), (IH Hs). reflexivity.
Qed.

Lemma substring_whole (n : nat) (a : string) : String.length a = n -> substring 0 n a = a.
Proof. intros L. rewrite <- (str_app_nil_r a) at 1. now apply substring_prefix. Qed.

Lemma hashpw_bcrypt_string (password s22 rest : string) :
  valid_salt22 s22 = true ->
  (rest = "" \/ bcrypt_digest_ok rest = true) ->
  hashpw password ("$2b$12$" ++ s22 ++ rest) =
  Some ("$2b$12$" ++ s22 ++ eks_blowfish 12 s22 (substring 0 72 password)).
Proof.
  intros Hs Hr. unfold valid_salt22 in Hs. apply andb_prop in Hs as [Hl Hb].
  apply Nat.eqb_eq in Hl.
  assert (Hall : str_forallb is_bcrypt_b64 (s22 ++ rest) = true /\
                 (String.length (s22 ++ rest) = 22 \/ String.length (s22 ++ rest) = 53)).
  { rewrite str_forallb_app, str_length_app, Hb, Hl.
    destruct Hr as [-> | Hr]; [simpl; auto|].
    unfold bcrypt_digest_ok in Hr. apply andb_prop in Hr as [Hr1 Hr2].
    apply Nat.eqb_eq in Hr1. rewrite Hr1, Hr2. auto. }
  destruct Hall as [Hall Hlen].
  assert (Hne : String.eqb (s22 ++ rest) "" = false).
  { apply String.eqb_neq. intros E. rewrite E in Hlen. simpl in Hlen. lia. }
  unfold hashpw. cbn [split_on String.append Ascii.eqb].
  rewrite (split_on_b64 _ Hall). cbn -[substring String.length].
  rewrite Hne. cbn -[substring String.length].
  rewrite (substring_prefix 22 s22 rest Hl), Hb.
  replace (Nat.eqb (String.length (s22 ++ rest)) 22 || Nat.eqb (String.length (s22 ++ rest)) 53) with true
    by (destruct Hlen as [-> | ->]; reflexivity).
  reflexivity.
Qed.

Lemma hash_password_ok (salt22 password : string) :
  valid_salt22 salt22 = true -> password <> "" ->
  hash_password salt22 password =
  inr ("$2b$12$" ++ salt22 ++ eks_blowfish 12 salt22 (substring 0 72 password)).
Proof.
  intros Hs Hp. unfold hash_password.
  apply String.eqb_neq in Hp. rewrite Hp. unfold gensalt.
  rewrite <- (str_app_nil_r salt22) at 1.
  now rewrite (hashpw_bcrypt_string password salt22 "" Hs (or_introl eq_refl)).
Qed.

(** [verify_password p h] for a hash [h] made from [p2] compares the two
    digests, that is the images of the first 72 bytes of [p] and [p2]. *)
Lemma verify_password_hash (salt22 p p2 : string) :
  valid_salt22 salt22 = true -> p <> "" ->
  bcrypt_digest_ok (eks_blowfish 12 salt22 (substring 0 72 p2)) = true ->
  verify_password p ("$2b$12$" ++ salt22 ++ eks_blowfish 12 salt22 (substring 0 72 p2)) =
  String.eqb (eks_blowfish 12 salt22 (substring 0 72 p)) (eks_blowfish 12 salt22 (substring 0 72 p2)).
Proof.
  intros Hs Hp Hd. unfold verify_password.
  apply String.eqb_neq in Hp. rewrite Hp. simpl orb.
  rewrite (hashpw_bcrypt_string p salt22 _ Hs (or_intror Hd)).
  rewrite <- !str_app_assoc. apply str_eqb_app_l.
Qed.

(** ** Use-case helpers *)

(** Running the monad one step: unfold its operations and the repository reads. *)
Ltac mred H := cbv [bind raise ret catch get_by_email get_by_id repo_create email negb andb orb] in H.
Ltac mred_goal := cbv [bind raise ret catch get_by_email get_by_id repo_create email negb andb orb].

Ltac gate_leaf H :=
  mred H; injection H as <- <-; split; [reflexivity|];
  intros ? He; first [discriminate He | injection He as <-; auto].


Lemma is_blank_nonempty (s : string) : is_blank s = false -> s <> "".
Proof. intros H E. subst. discriminate. Qed.

(** [create_user] succeeds exactly by storing a new active user whose hash is
    the bcrypt string of the password, after the email was found free. *)
Lemma create_user_success (now : nat) (new_id salt22 addr password : string) (s s1 : Store) (u : User) :
  valid_salt22 salt22 = true ->
  create_user now new_id salt22 addr password s = (inr u, s1) ->
  is_blank addr = false /\ is_blank password = false /\ is_valid_email addr = true /\
  find_by_email (normalize_email addr) s = None /\
  u = create_new_user new_id now (normalize_email addr)
        ("$2b$12$" ++ salt22 ++ eks_blowfish 12 salt22 (substring 0 72 password)) /\
  s1 = app s [u].
Proof.
  intros Hs H. unfold create_user, validate_input in H.
  destruct (is_blank addr) eqn:E1; mred H; [congruence|].
  destruct (is_blank password) eqn:E2; mred H; [congruence|].
  destruct (is_valid_email addr) eqn:E3; mred H; [|congruence].
  destruct (is_valid_password password) eqn:E4; mred H; [|congruence].
  destruct (find_by_email (normalize_email addr) s) eqn:E5; mred H; [congruence|].
  rewrite (hash_password_ok salt22 password Hs (is_blank_nonempty _ E2)) in H.
  cbv [create_new_user] in H. mred H. rewrite E5 in H. injection H as <- <-.
  repeat split; reflexivity.
Qed.

Lemma find_by_email_normalized (addr : string) (s : Store) :
  find_by_email (normalize_email addr) s = find_by_email addr s.
Proof. unfold find_by_email. now rewrite normalize_email_idem. Qed.



(** ** JWTHandler.verify_token *)

Lemma verify_token_decode (now : nat) (token : string) :
  verify_token now token =
  match jwt_decode token JWT_SECRET_KEY [JWT_ALGORITHM] now with
  | inr c => inr (access_payload (inr c))
  | inl e => if is_InvalidTokenError e then inr None else inl e
  end.
Proof.
  unfold verify_token, access_payload.
  destruct (jwt_decode _ _ _ _) as [e|c].
  - destruct e; reflexivity.
  - destruct (claim_type c) as [[]|]; try reflexivity. destruct (String.eqb _ "access"); reflexivity.
Qed.

Lemma jwt_decode_unfold (token key : string) (algs : list string) (now : nat) :
  jwt_decode token key algs now =
  match parse_jws token with
  | None => inl DecodeError
  | Some (hs, ps, sg) =>
      match dec_header hs with
      | None => inl DecodeError
      | Some h =>
          if negb (existsb (String.eqb (hdr_alg h)) algs) then inl InvalidAlgorithmError
          else if negb (String.eqb sg (hmac_sha256 key (signing_input hs ps))) then inl InvalidSignatureError
          else match dec_claims ps with
               | None => inl DecodeError
               | Some c => validate_claims now c
               end
      end
  end.
Proof. reflexivity. Qed.








(** ** SecurityService.get_current_user *)

(** C1 (as the code has it): every failing attempt at the gate is a 401 and
    leaves the collection as it was. A token that does not verify, a payload
    without [user_id] and an id that resolves to no user all give the same
    [credentials_exception] (["Could not validate credentials"] with the
    [WWW-Authenticate: Bearer] header); a resolved but inactive user gets a
    different one, ["Inactive user"] without that header. *)
Theorem get_current_user_failures (now : nat) (token : string) (s : Store) :
  (verify_token now token = inr None ->
     get_current_user now token s = (inl credentials_exception, s)) /\
  (forall p, verify_token now token = inr (Some p) -> claim_user_id p = None ->
     get_current_user now token s = (inl credentials_exception, s)) /\
  (forall p uid, verify_token now token = inr (Some p) -> claim_user_id p = Some uid ->
     find_by_id uid s = None -> get_current_user now token s = (inl credentials_exception, s)) /\
  (forall p uid u, verify_token now token = inr (Some p) -> claim_user_id p = Some uid ->
     find_by_id uid s = Some u -> is_active u = false ->
     get_current_user now token s = (inl inactive_user_exception, s)) /\
  (forall r s', get_current_user now token s = (r, s') ->
     s' = s /\ (forall e, r = inl e -> e = credentials_exception \/ e = inactive_user_exception)) /\
  credentials_exception <> inactive_user_exception.
Proof.
  unfold get_current_user.
  refine (conj _ (conj _ (conj _ (conj _ (conj _ _))))).
  - intros H. now rewrite H.
  - intros p H Hu. now rewrite H, Hu.
  - intros p uid H Hu Hf. rewrite H, Hu. mred_goal. now rewrite Hf.
  - intros p uid u H Hu Hf Ha. rewrite H, Hu. mred_goal. now rewrite Hf, Ha.
  - intros r s' H.
    destruct (verify_token now token) as [e|[p|]]; [gate_leaf H| |gate_leaf H].
    destruct (claim_user_id p) as [uid|]; [|gate_leaf H].
    mred H. destruct (find_by_id uid s) as [u|]; [|gate_leaf H].
    destruct (is_active u); cbn in H; gate_leaf H.
  - discriminate.
Qed.

(** ** UpdateUserUseCase *)

Lemma find_by_id_id (uid : string) (s : Store) (u : User) :
  find_by_id uid s = Some u -> id u = uid.
Proof. unfold find_by_id. intros H. apply find_some in H as [_ H]. now apply String.eqb_eq. Qed.

Lemma is_valid_email_truthy (e : string) : is_valid_email e = true -> truthy (Some e) = true.
Proof. unfold is_valid_email, truthy. now destruct (String.eqb e ""). Qed.

Lemma is_valid_password_truthy (p : string) : is_valid_password p = true -> truthy (Some p) = true.
Proof. unfold is_valid_password, truthy. now destruct (String.eqb p ""). Qed.

Lemma is_valid_password_nonempty (p : string) : is_valid_password p = true -> p <> "".
Proof. intros H E. subst. discriminate. Qed.

(** C2: on an update that passes every check (the requester is the target,
    exists and is active), a valid new email that no other user holds is not
    applied: [update_email] is not a method of [User], so the call raises
    [AttributeError]; likewise a valid new password raises [AttributeError]
    on [update_password_hash]. Nothing is returned and the collection is left
    as it was. *)
Theorem update_user_attribute_error (now : nat) (salt22 uid : string) (u : User) (s : Store) :
  is_blank uid = false -> find_by_id uid s = Some u -> is_active u = true ->
  (forall e np, is_valid_email e = true -> (forall ex, find_by_email e s = Some ex -> id ex = uid) ->
     update_user now salt22 uid uid (Some e) np s =
     (inl (AttributeError "'User' object has no attribute 'update_email'"), s)) /\
  (forall p, valid_salt22 salt22 = true -> is_valid_password p = true ->
     update_user now salt22 uid uid None (Some p) s =
     (inl (AttributeError "'User' object has no attribute 'update_password_hash'"), s)).
Proof.
  intros Hb Hf Ha. pose proof (find_by_id_id _ _ _ Hf) as Hid.
  split.
  - intros e np He Hfree. unfold update_user.
    rewrite Hb, (is_valid_email_truthy e He). mred_goal.
    rewrite Hf, Ha, String.eqb_refl. mred_goal. rewrite Hf, Ha. mred_goal.
    unfold update_user_email. rewrite He. mred_goal.
    rewrite find_by_email_normalized.
    destruct (find_by_email e s) as [ex|] eqn:Ee.
    + rewrite (Hfree ex eq_refl), Hid, String.eqb_refl. reflexivity.
    + reflexivity.
  - intros p Hs Hp. unfold update_user.
    rewrite Hb, (is_valid_password_truthy p Hp). cbv [truthy]. mred_goal.
    rewrite Hf, Ha, String.eqb_refl. mred_goal. rewrite ?Hf, ?Ha. mred_goal.
    unfold update_user_password. rewrite Hp.
    rewrite (hash_password_ok salt22 p Hs (is_valid_password_nonempty p Hp)). reflexivity.
Qed.

(** ** LoginUserUseCase *)



(** ** PasswordHasher *)

Lemma valid_salt22_length (s22 : string) : valid_salt22 s22 = true -> String.length s22 = 22.
Proof. unfold valid_salt22. intros H. apply andb_prop in H as [H _]. now apply Nat.eqb_eq. Qed.

Lemma bcrypt_digest_ok_length (d : string) : bcrypt_digest_ok d = true -> String.length d = 31.
Proof. unfold bcrypt_digest_ok. intros H. apply andb_prop in H as [H _]. now apply Nat.eqb_eq. Qed.

(** C9 (as the code has it): with a salt drawn by [gensalt] and bcrypt's
    digest shape, hashing a non-empty password succeeds; the hash differs
    from the password whenever the password is not 60 bytes long (the length
    of every hash); [verify_password p (hash p)] holds; and
    [verify_password p (hash p2)] holds exactly when bcrypt gives the same
    digest for the first 72 bytes of [p] and of [p2], in particular whenever
    those 72-byte prefixes agree, even for [p <> p2]. *)
Theorem password_hasher_roundtrip (salt22 p p2 : string) :
  valid_salt22 salt22 = true -> p <> "" -> p2 <> "" ->
  bcrypt_digest_ok (eks_blowfish 12 salt22 (substring 0 72 p)) = true ->
  bcrypt_digest_ok (eks_blowfish 12 salt22 (substring 0 72 p2)) = true ->
  exists h h2,
    hash_password salt22 p = inr h /\ hash_password salt22 p2 = inr h2 /\
    String.length h = 60 /\
    (String.length p <> 60 -> h <> p) /\
    verify_password p h = true /\
    verify_password p h2 =
      String.eqb (eks_blowfish 12 salt22 (substring 0 72 p)) (eks_blowfish 12 salt22 (substring 0 72 p2)) /\
    (substring 0 72 p = substring 0 72 p2 -> verify_password p h2 = true).
Proof.
  intros Hs Hp Hp2 Hd Hd2.
  exists ("$2b$12$" ++ salt22 ++ eks_blowfish 12 salt22 (substring 0 72 p)),
         ("$2b$12$" ++ salt22 ++ eks_blowfish 12 salt22 (substring 0 72 p2)).
  assert (Hlen : String.length ("$2b$12$" ++ salt22 ++ eks_blowfish 12 salt22 (substring 0 72 p)) = 60).
  { rewrite !str_length_app, (valid_salt22_length _ Hs), (bcrypt_digest_ok_length _ Hd). reflexivity. }
  refine (conj (hash_password_ok _ _ Hs Hp) (conj (hash_password_ok _ _ Hs Hp2)
           (conj Hlen (conj _ (conj _ (conj _ _)))))).
  - intros Hn E. apply Hn. rewrite <- E. exact Hlen.
  - rewrite (verify_password_hash salt22 p p Hs Hp Hd). apply String.eqb_refl.
  - apply (verify_password_hash salt22 p p2 Hs Hp Hd2).
  - intros E. rewrite (verify_password_hash salt22 p p2 Hs Hp Hd2), E. apply String.eqb_refl.
Qed.

(* ================================================================== *)
(** * Further properties of the code *)

(** ** Helpers *)

Lemma jwt_decode_encode (c : Claims) (t : nat) :
  jwt_decode (jwt_encode c JWT_SECRET_KEY JWT_ALGORITHM) JWT_SECRET_KEY [JWT_ALGORITHM] t = validate_claims t c.
Proof.
  rewrite jwt_decode_unfold, parse_jws_encode, dec_header_enc, dec_claims_enc.
  cbn [hdr_alg existsb]. rewrite !String.eqb_refl. reflexivity.
Qed.



Ltac window_cases a b t :=
  destruct (Nat.ltb_spec t a); destruct (Nat.leb_spec b t);
  destruct (Nat.leb_spec a t); destruct (Nat.ltb_spec t b); try lia.




(** The outcomes of the authentication dependency. *)
Lemma get_current_user_cases (now : nat) (token : string) (s : Store) :
  (exists e, get_current_user now token s = (inl e, s) /\
             (e = credentials_exception \/ e = inactive_user_exception)) \/
  (exists p u, verify_token now token = inr (Some p) /\ claim_user_id p = Some (id u) /\
               find_by_id (id u) s = Some u /\ is_active u = true /\
               get_current_user now token s = (inr u, s)).
Proof.
  unfold get_current_user.
  destruct (verify_token now token) as [e|[p|]].
  - left. eexists. split; [reflexivity|now left].
  - destruct (claim_user_id p) as [uid|] eqn:Eu; [|left; eexists; split; [reflexivity|now left]].
    mred_goal. destruct (find_by_id uid s) as [u|] eqn:Ef; [|left; eexists; split; [reflexivity|now left]].
    pose proof (find_by_id_id _ _ _ Ef) as Hi. subst uid.
    destruct (is_active u) eqn:Ea.
    + right. exists p, u. refine (conj eq_refl (conj Eu (conj Ef (conj Ea eq_refl)))).
    + left. eexists. split; [reflexivity|now right].
  - left. eexists. split; [reflexivity|now left].
Qed.






Lemma NoDup_snoc {A} (l : list A) (x : A) : NoDup l -> ~ In x l -> NoDup (l ++ [x]).
Proof.
  induction l as [|y l IH]; simpl; intros Hd Hx.
  - constructor; [intros []|constructor].
  - inversion Hd as [|? ? Hy Hl]; subst. constructor.
    + rewrite in_app_iff. intros [H|[H|[]]]; [exact (Hy H)|]. subst. apply Hx. now left.
    + apply IH; auto.
Qed.

(** What [create_user] does to the collection: nothing, or appending one
    new user with the normalised email, which no stored user had. *)
Lemma create_user_store (now : nat) (new_id salt22 addr password : string) (s s' : Store) (r : Exc + User) :
  create_user now new_id salt22 addr password s = (r, s') ->
  s' = s \/ exists h, find_by_email addr s = None /\
                      s' = app s [create_new_user new_id now (normalize_email addr) h].
Proof.
  intros H. unfold create_user, validate_input in H.
  destruct (is_blank addr); mred H; [injection H as _ <-; now left|].
  destruct (is_blank password); mred H; [injection H as _ <-; now left|].
  destruct (is_valid_email addr); mred H; [|injection H as _ <-; now left].
  destruct (is_valid_password password); mred H; [|injection H as _ <-; now left].
  destruct (find_by_email (normalize_email addr) s) eqn:E5; mred H; [injection H as _ <-; now left|].
  destruct (hash_password salt22 password) as [e|h]; mred H; [injection H as _ <-; now left|].
  cbv [create_new_user] in H. mred H. rewrite E5 in H. injection H as _ <-.
  right. exists h. split; [now rewrite <- find_by_email_normalized|reflexivity].
Qed.

(* ------------------------------------------------------------------ *)
(** ** JWTHandler *)

(** X1: a token issued at [now] verifies, with the claims it was issued
    with, exactly at the times [now <= t < now + 60 * JWT_EXPIRATION_TIME_MINUTES];
    before [now] (its [iat] lies in the future) and from its [exp] on,
    [verify_token] returns [None]. *)
Theorem access_token_lifetime (now t : nat) (user_id email : string) :
  verify_token t (create_access_token now user_id email) =
  if (now <=? t) && (t <? now + JWT_EXPIRATION_TIME_MINUTES * 60)
  then inr (Some (access_claims now user_id email)) else inr None.
Proof.
  rewrite verify_token_decode. unfold create_access_token.
  rewrite jwt_decode_encode, validate_claims_access.
  window_cases now (now + JWT_EXPIRATION_TIME_MINUTES * 60) t; reflexivity.
Qed.

(** X2: [is_token_expired] on a token issued at [now] is [False] exactly
    inside its lifetime; it is [True] after expiry and also before [now],
    where the token is not yet valid rather than expired. *)
Theorem is_token_expired_access_token (now t : nat) (user_id email : string) :
  is_token_expired t (create_access_token now user_id email) =
  inr (negb ((now <=? t) && (t <? now + JWT_EXPIRATION_TIME_MINUTES * 60))).
Proof.
  unfold is_token_expired, create_access_token.
  rewrite jwt_decode_encode, validate_claims_access.
  window_cases now (now + JWT_EXPIRATION_TIME_MINUTES * 60) t; reflexivity.
Qed.



(* ------------------------------------------------------------------ *)
(** ** SecurityService *)

(** X5: behind [get_current_user], [get_current_active_user] never raises
    its 400 ["Inactive user"]: the dependency of the protected routes
    behaves exactly like [get_current_user]. *)
Theorem current_active_user_is_get_current_user (now : nat) (credentials : string) (s : Store) :
  current_active_user now credentials s = get_current_user now credentials s.
Proof.
  unfold current_active_user. cbv [bind].
  destruct (get_current_user_cases now credentials s) as [(e & H & _)|(p & u & _ & _ & _ & Ha & H)];
    rewrite H; [reflexivity|].
  unfold get_current_active_user. rewrite Ha. reflexivity.
Qed.



(* ------------------------------------------------------------------ *)
(** ** LoginUserUseCase.validate_credentials *)

(** X7: [validate_credentials] never raises and never writes: every
    exception [execute] can raise is one of the three it catches. It returns
    [True] exactly when [execute] would log in. *)
Theorem validate_credentials_never_raises (now : nat) (addr password : string) (s : Store) :
  exists b, validate_credentials now addr password s = (inr b, s) /\
            (b = true <-> exists r, login_user now addr password s = (inr r, s)).
Proof.
  unfold validate_credentials, login_user.
  destruct (is_blank addr), (is_blank password), (is_valid_email addr); mred_goal;
  try (destruct (find_by_email (normalize_email addr) s) as [u|];
       [destruct (is_active u), (verify_password password (password_hash u))|]);
  mred_goal;
  eexists; (split; [reflexivity|]); split; intros H;
  first [ reflexivity | eexists; reflexivity | discriminate H | destruct H as [? H]; discriminate H ].
Qed.

(* ------------------------------------------------------------------ *)
(** ** CreateUserUseCase.check_email_availability *)


(** X9: [create_user] keeps the collection's emails normalised and pairwise
    distinct: its own lookup of the normalised email already rules out the
    duplicates the unique index on [email] would reject. *)
Theorem create_user_keeps_emails_unique (now : nat) (new_id salt22 addr password : string)
    (s s' : Store) (r : Exc + User) :
  emails_normalized_unique s ->
  create_user now new_id salt22 addr password s = (r, s') ->
  emails_normalized_unique s'.
Proof.
  intros [Hn Hd] H.
  destruct (create_user_store _ _ _ _ _ _ _ _ H) as [->|(h & Hf & ->)]; [split; assumption|].
  split.
  - apply Forall_app. split; [exact Hn|]. constructor; [|constructor]. apply normalize_email_idem.
  - rewrite map_app. apply NoDup_snoc; [exact Hd|]. cbn [map email create_new_user].
    intros Hin. apply in_map_iff in Hin as (v & Hv & Hin).
    unfold find_by_email in Hf. pose proof (find_none _ _ Hf v Hin) as Hx.
    cbv beta in Hx. rewrite Hv, String.eqb_refl in Hx. discriminate.
Qed.

(* ------------------------------------------------------------------ *)
(** ** Helpers on the repository and the use cases *)

Lemma find_by_id_split (uid : string) (s : Store) (u : User) :
  find_by_id uid s = Some u -> exists pre post, s = (pre ++ u :: post)%list /\ find_by_id uid pre = None.
Proof.
  unfold find_by_id. induction s as [|v s IH]; simpl; intros H; [discriminate|].
  destruct (String.eqb (id v) uid) eqn:E.
  - injection H as <-. exists [], s. split; reflexivity.
  - destruct (IH H) as (pre & post & -> & Hp). exists (v :: pre), post.
    split; [reflexivity|]. simpl. now rewrite E.
Qed.

Lemma find_by_id_app (uid : string) (pre post : Store) (u : User) :
  find_by_id uid pre = None -> id u = uid -> find_by_id uid ((pre ++ u :: post)%list) = Some u.
Proof.
  unfold find_by_id. induction pre as [|v pre IH]; simpl; intros Hp Hu.
  - subst. now rewrite String.eqb_refl.
  - destruct (String.eqb (id v) uid); [discriminate|]. auto.
Qed.

Lemma replace_one_split (v u : User) (pre post : Store) :
  find_by_id (id v) pre = None -> id u = id v -> user_eqb u v = false ->
  replace_one v ((pre ++ u :: post)%list) = Some ((pre ++ v :: post)%list).
Proof.
  unfold find_by_id. induction pre as [|w pre IH]; simpl; intros Hp Hu He.
  - rewrite Hu, String.eqb_refl, He. reflexivity.
  - destruct (String.eqb (id w) (id v)); [discriminate|]. rewrite (IH Hp Hu He). reflexivity.
Qed.

Lemma delete_one_split (uid : string) (u : User) (pre post : Store) :
  find_by_id uid pre = None -> id u = uid -> delete_one uid ((pre ++ u :: post)%list) = Some (pre ++ post)%list.
Proof.
  unfold find_by_id. induction pre as [|w pre IH]; simpl; intros Hp Hu.
  - rewrite Hu, String.eqb_refl. reflexivity.
  - destruct (String.eqb (id w) uid); [discriminate|]. rewrite (IH Hp Hu). reflexivity.
Qed.

Lemma user_eqb_active (u v : User) : is_active u <> is_active v -> user_eqb u v = false.
Proof.
  unfold user_eqb. destruct (is_active u), (is_active v); intros H; try congruence;
  cbn [Bool.eqb]; rewrite ?andb_false_r, ?andb_false_l; reflexivity.
Qed.

Lemma soft_delete_run (now : nat) (uid : string) (u : User) (pre post : Store) :
  is_blank uid = false -> find_by_id uid pre = None -> id u = uid -> is_active u = true ->
  execute_soft_delete now uid uid ((pre ++ u :: post)%list) =
  (inr (deactivate now u), (pre ++ deactivate now u :: post)%list).
Proof.
  intros Hb Hp Hu Ha. unfold execute_soft_delete. rewrite Hb, String.eqb_refl. mred_goal.
  rewrite (find_by_id_app uid pre post u Hp Hu), Ha. cbv [call_user_method user_mutator repo_update].
  simpl. rewrite (replace_one_split _ u pre post); [reflexivity| | |].
  - simpl. now rewrite Hu.
  - reflexivity.
  - apply user_eqb_active. simpl. rewrite Ha. discriminate.
Qed.

Lemma reactivate_run (now : nat) (uid : string) (u : User) (pre post : Store) :
  is_blank uid = false -> find_by_id uid pre = None -> id u = uid -> is_active u = false ->
  reactivate_user now uid uid ((pre ++ u :: post)%list) =
  (inr (activate now u), (pre ++ activate now u :: post)%list).
Proof.
  intros Hb Hp Hu Ha. unfold reactivate_user. rewrite Hb, String.eqb_refl. mred_goal.
  rewrite (find_by_id_app uid pre post u Hp Hu), Ha. cbv [call_user_method user_mutator repo_update].
  simpl. rewrite (replace_one_split _ u pre post); [reflexivity| | |].
  - simpl. now rewrite Hu.
  - reflexivity.
  - apply user_eqb_active. simpl. rewrite Ha. discriminate.
Qed.

Lemma hard_delete_run (uid : string) (u : User) (pre post : Store) :
  is_blank uid = false -> find_by_id uid pre = None -> id u = uid ->
  execute_hard_delete uid uid ((pre ++ u :: post)%list) = (inr uid, (pre ++ post)%list).
Proof.
  intros Hb Hp Hu. unfold execute_hard_delete. rewrite Hb, String.eqb_refl. mred_goal.
  rewrite (find_by_id_app uid pre post u Hp Hu). cbv [repo_delete].
  rewrite (delete_one_split uid u pre post Hp Hu). reflexivity.
Qed.

Ltac fail_case H :=
  left; mred H; injection H as <- <-; split; [reflexivity|intros ? Hv; discriminate Hv].

Lemma soft_delete_inv (now : nat) (uid rid : string) (s s' : Store) (r : Exc + User) :
  execute_soft_delete now uid rid s = (r, s') ->
  (s' = s /\ forall v, r <> inr v) \/
  (uid = rid /\ is_blank uid = false /\ exists pre u post, s = (pre ++ u :: post)%list /\
     find_by_id uid pre = None /\ id u = uid /\ is_active u = true /\
     r = inr (deactivate now u) /\ s' = (pre ++ deactivate now u :: post)%list).
Proof.
  intros H.
  destruct (is_blank uid) eqn:Hb; [unfold execute_soft_delete in H; rewrite Hb in H; fail_case H|].
  destruct (is_blank rid) eqn:Hr; [unfold execute_soft_delete in H; rewrite Hb, Hr in H; fail_case H|].
  destruct (String.eqb_spec uid rid) as [<-|Hne];
    [|unfold execute_soft_delete in H; rewrite Hb, Hr, (proj2 (String.eqb_neq _ _) Hne) in H; fail_case H].
  destruct (find_by_id uid s) as [u|] eqn:Ef;
    [|unfold execute_soft_delete in H; rewrite Hb, String.eqb_refl in H; mred H; rewrite Ef in H; fail_case H].
  destruct (is_active u) eqn:Ea;
    [|unfold execute_soft_delete in H; rewrite Hb, String.eqb_refl in H; mred H; rewrite Ef, Ea in H; fail_case H].
  destruct (find_by_id_split _ _ _ Ef) as (pre & post & -> & Hp).
  pose proof (find_by_id_id _ _ _ Ef) as Hu.
  rewrite (soft_delete_run now uid u pre post Hb Hp Hu Ea) in H.
  right. injection H as <- <-. split; [reflexivity|]. split; [reflexivity|].
  exists pre, u, post. auto 7.
Qed.

Lemma reactivate_inv (now : nat) (uid rid : string) (s s' : Store) (r : Exc + User) :
  reactivate_user now uid rid s = (r, s') ->
  (s' = s /\ forall v, r <> inr v) \/
  (uid = rid /\ is_blank uid = false /\ exists pre u post, s = (pre ++ u :: post)%list /\
     find_by_id uid pre = None /\ id u = uid /\ is_active u = false /\
     r = inr (activate now u) /\ s' = (pre ++ activate now u :: post)%list).
Proof.
  intros H.
  destruct (is_blank uid) eqn:Hb; [unfold reactivate_user in H; rewrite Hb in H; fail_case H|].
  destruct (is_blank rid) eqn:Hr; [unfold reactivate_user in H; rewrite Hb, Hr in H; fail_case H|].
  destruct (String.eqb_spec uid rid) as [<-|Hne];
    [|unfold reactivate_user in H; rewrite Hb, Hr, (proj2 (String.eqb_neq _ _) Hne) in H; fail_case H].
  destruct (find_by_id uid s) as [u|] eqn:Ef;
    [|unfold reactivate_user in H; rewrite Hb, String.eqb_refl in H; mred H; rewrite Ef in H; fail_case H].
  destruct (is_active u) eqn:Ea;
    [unfold reactivate_user in H; rewrite Hb, String.eqb_refl in H; mred H; rewrite Ef, Ea in H; fail_case H|].
  destruct (find_by_id_split _ _ _ Ef) as (pre & post & -> & Hp).
  pose proof (find_by_id_id _ _ _ Ef) as Hu.
  rewrite (reactivate_run now uid u pre post Hb Hp Hu Ea) in H.
  right. injection H as <- <-. split; [reflexivity|]. split; [reflexivity|].
  exists pre, u, post. auto 7.
Qed.

Lemma hard_delete_inv (uid rid : string) (s s' : Store) (r : Exc + string) :
  execute_hard_delete uid rid s = (r, s') ->
  (s' = s /\ forall v, r <> inr v) \/
  (uid = rid /\ is_blank uid = false /\ exists pre u post, s = (pre ++ u :: post)%list /\
     find_by_id uid pre = None /\ id u = uid /\ r = inr uid /\ s' = (pre ++ post)%list).
Proof.
  intros H.
  destruct (is_blank uid) eqn:Hb; [unfold execute_hard_delete in H; rewrite Hb in H; fail_case H|].
  destruct (is_blank rid) eqn:Hr; [unfold execute_hard_delete in H; rewrite Hb, Hr in H; fail_case H|].
  destruct (String.eqb_spec uid rid) as [<-|Hne];
    [|unfold execute_hard_delete in H; rewrite Hb, Hr, (proj2 (String.eqb_neq _ _) Hne) in H; fail_case H].
  destruct (find_by_id uid s) as [u|] eqn:Ef;
    [|unfold execute_hard_delete in H; rewrite Hb, String.eqb_refl in H; mred H; rewrite Ef in H; fail_case H].
  destruct (find_by_id_split _ _ _ Ef) as (pre & post & -> & Hp).
  pose proof (find_by_id_id _ _ _ Ef) as Hu.
  rewrite (hard_delete_run uid u pre post Hb Hp Hu) in H.
  right. injection H as <- <-. split; [reflexivity|]. split; [reflexivity|].
  exists pre, u, post. auto 6.
Qed.

Lemma current_active_user_cases (now : nat) (token : string) (s : Store) :
  (exists e, current_active_user now token s = (inl e, s) /\
             get_current_user now token s = (inl e, s) /\
             (e = credentials_exception \/ e = inactive_user_exception)) \/
  (exists u, find_by_id (id u) s = Some u /\ is_active u = true /\
             get_current_user now token s = (inr u, s) /\
             current_active_user now token s = (inr u, s)).
Proof.
  unfold current_active_user. cbv [bind].
  destruct (get_current_user_cases now token s) as [(e & H & He)|(p & u & _ & _ & Hf & Ha & H)];
    rewrite H.
  - left. exists e. auto.
  - right. exists u. unfold get_current_active_user. rewrite Ha. auto.
Qed.

Lemma route_guard_inr {A} (body : M A) (s s' : Store) (a : A) :
  route_guard body s = (inr a, s') -> body s = (inr a, s').
Proof. unfold route_guard, catch, raise. destruct (body s) as [[e|b] s1]; congruence. Qed.

Lemma route_guard_inl {A} (body : M A) (s : Store) (e : Exc) :
  body s = (inl e, s) -> route_guard body s = (inl (route_error e), s).
Proof. unfold route_guard, catch, raise. intros ->. reflexivity. Qed.

Lemma route_guard_value_inl {A} (body : M A) (s : Store) (e : Exc) :
  body s = (inl e, s) -> exists e', route_guard_value body s = (inl e', s).
Proof. unfold route_guard_value, catch, raise. intros ->. destruct e; eexists; reflexivity. Qed.

Lemma route_guard_value_error {A} (body : M A) (s : Store) (m : string) :
  body s = (inl (ValueError m), s) -> route_guard_value body s = (inl (route_error (ValueError m)), s).
Proof. unfold route_guard_value, catch, raise. intros ->. reflexivity. Qed.

(** ** Operations on another user's id *)



(** ** DeleteUserUseCase: state checks *)

Lemma soft_delete_already_inactive (now : nat) (uid rid : string) (s s' : Store) :
  execute_soft_delete now uid rid s = (inl (ValueError "Usuario ya está inactivo"), s') ->
  exists u, find_by_id rid s = Some u /\ is_active u = false.
Proof.
  unfold execute_soft_delete.
  destruct (is_blank uid); [mred_goal; intros H; discriminate H|].
  destruct (is_blank rid); [mred_goal; intros H; discriminate H|].
  destruct (String.eqb_spec uid rid) as [<-|_]; mred_goal; [|intros H; discriminate H].
  destruct (find_by_id uid s) as [u|]; [|intros H; discriminate H].
  destruct (is_active u) eqn:Ea; [|intros _; exists u; auto].
  cbv [call_user_method user_mutator repo_update]. simpl.
  destruct (replace_one _ _); intros H; discriminate H.
Qed.

Lemma route_error_400 (e : Exc) (m : string) (l : list (string * string)) :
  route_error e = HTTPException 400 m l -> e = ValueError m.
Proof.
  destruct e; try (intros H; discriminate H).
  unfold route_error. cbv zeta.
  destruct (_ || _); [intros H; discriminate H|].
  destruct (_ || _); [intros H; discriminate H|].
  intros H. injection H as <- _. reflexivity.
Qed.

(** C7 (as the code has it): on one's own existing account, soft-deleting it
    while inactive raises [ValueError "Usuario ya está inactivo"] and
    reactivating it while active raises [ValueError "Usuario ya está activo"]
    (not a [BusinessRuleException]); the collection is unchanged. The route
    [POST /{user_id}/reactivate] answers the owner of the active account with
    400 ["Usuario ya está activo"]. The route [DELETE /{user_id}] never
    answers 400 ["Usuario ya está inactivo"]: its dependency refuses an
    inactive caller before the use case runs, and an active caller's own
    account is active. *)
Theorem state_check_errors (now : nat) (uid : string) (u : User) (s : Store) :
  is_blank uid = false -> find_by_id uid s = Some u ->
  (is_active u = false ->
     execute_soft_delete now uid uid s = (inl (ValueError "Usuario ya está inactivo"), s)) /\
  (is_active u = true ->
     reactivate_user now uid uid s = (inl (ValueError "Usuario ya está activo"), s)) /\
  (forall credentials, get_current_user now credentials s = (inr u, s) ->
     reactivate_user_route now credentials uid s =
       (inl (HTTPException 400 "Usuario ya está activo" []), s)) /\
  (forall credentials tid r s', deactivate_user_route now credentials tid s = (r, s') ->
     r <> inl (HTTPException 400 "Usuario ya está inactivo" [])).
Proof.
  intros Hb Hf. split; [|split; [|split]].
  - intros Ha. unfold execute_soft_delete.
    rewrite Hb, String.eqb_refl. mred_goal. now rewrite Hf, Ha.
  - intros Ha. unfold reactivate_user.
    rewrite Hb, String.eqb_refl. mred_goal. now rewrite Hf, Ha.
  - intros credentials Hg.
    destruct (current_active_user_cases now credentials s) as [(e & _ & He & _)|(u' & _ & Ha & Hg' & Hc)];
      [congruence|].
    rewrite Hg in Hg'. injection Hg' as <-.
    unfold reactivate_user_route. cbv [bind]. rewrite Hc.
    rewrite (route_guard_value_error _ s "Usuario ya está activo"); [reflexivity|].
    rewrite (find_by_id_id _ _ _ Hf). unfold reactivate_user.
    rewrite Hb, String.eqb_refl. mred_goal. now rewrite Hf, Ha.
  - intros credentials tid r s' H ->. unfold deactivate_user_route in H. cbv [bind] in H.
    destruct (current_active_user_cases now credentials s)
      as [(e & Hc & _ & [-> | ->])|(u' & Hf' & Ha' & _ & Hc)]; rewrite Hc in H.
    + injection H as E _. discriminate E.
    + injection H as E _. discriminate E.
    + unfold route_guard, catch in H.
      destruct (execute_soft_delete now tid (id u') s) as [[e|v] s1] eqn:Es; cbv [raise ret bind] in H.
      * injection H as E _. apply route_error_400 in E. subst e.
        destruct (soft_delete_already_inactive _ _ _ _ _ Es) as (w & Hw & Hi).
        rewrite Hf' in Hw. injection Hw as <-. congruence.
      * destruct (execute_soft_delete now tid (id u') s); discriminate.
Qed.

(** The use case of [GET /{user_id}] reads only, and every exception it
    raises is one the route answers with 500. *)
Lemma get_user_by_id_execute_result (uid rid : string) (s : Store) :
  (exists v, get_user_by_id_execute uid rid s = (inr v, s)) \/
  (exists e, get_user_by_id_execute uid rid s = (inl e, s) /\ route_error e = internal_server_error).
Proof.
  unfold get_user_by_id_execute, wrap_unexpected. mred_goal.
  destruct (is_blank (sanitize_user_id uid)); [right; eexists; split; reflexivity|].
  destruct (is_blank rid); [right; eexists; split; reflexivity|].
  destruct (find_by_id rid s) as [ru|]; [|right; eexists; split; reflexivity].
  destruct (is_active ru); [|right; eexists; split; reflexivity].
  destruct (find_by_id (sanitize_user_id uid) s) as [v|]; [|right; eexists; split; reflexivity].
  destruct (is_active v); [left; eexists; reflexivity|right; eexists; split; reflexivity].
Qed.

Lemma update_user_email_fails (now : nat) (u : User) (e : string) (s : Store) :
  exists x, update_user_email now u e s = (inl x, s) /\ route_error x = internal_server_error.
Proof.
  unfold update_user_email. destruct (is_valid_email e); mred_goal; [|eexists; split; reflexivity].
  destruct (find_by_email (normalize_email e) s) as [ex|];
    [destruct (String.eqb (id ex) (id u))|]; eexists; split; reflexivity.
Qed.

Lemma update_user_password_fails (now : nat) (salt22 : string) (u : User) (p : string) (s : Store) :
  valid_salt22 salt22 = true ->
  exists x, update_user_password now salt22 u p s = (inl x, s) /\ route_error x = internal_server_error.
Proof.
  intros Hs. unfold update_user_password. destruct (is_valid_password p) eqn:Hp;
    [|eexists; split; reflexivity].
  rewrite (hash_password_ok salt22 p Hs (is_valid_password_nonempty p Hp)).
  eexists; split; reflexivity.
Qed.

(** [UpdateUserUseCase.execute] never returns: each path raises, with the
    collection unchanged, an exception that is not a [ValueError]. *)
Lemma update_user_fails (now : nat) (salt22 uid rid : string) (ne np : option string) (s : Store) :
  valid_salt22 salt22 = true ->
  exists x, update_user now salt22 uid rid ne np s = (inl x, s) /\ route_error x = internal_server_error.
Proof.
  intros Hs. unfold update_user.
  destruct (is_blank uid); [eexists; split; reflexivity|].
  destruct (is_blank rid); [eexists; split; reflexivity|].
  destruct (truthy ne) eqn:Tn, (truthy np) eqn:Tp; cbn [negb andb];
    try (eexists; split; reflexivity); mred_goal;
  (destruct (find_by_id rid s) as [ru|]; [|eexists; split; reflexivity]);
  (destruct (is_active ru); [|eexists; split; reflexivity]);
  (destruct (String.eqb uid rid); [|eexists; split; reflexivity]);
  (destruct (find_by_id uid s) as [u|]; [|eexists; split; reflexivity]);
  (destruct (is_active u); [|eexists; split; reflexivity]).
  all: destruct ne as [e|]; cbv beta iota.
  all: try (destruct (update_user_email_fails now u e s) as (x & Hx & Hr); rewrite Hx;
            exists x; split; [reflexivity|exact Hr]).
  all: destruct np as [p|]; cbv beta iota.
  all: try (destruct (update_user_password_fails now salt22 u p s Hs) as (x & Hx & Hr); rewrite Hx;
            exists x; split; [reflexivity|exact Hr]).
  all: cbv [truthy] in Tn, Tp; congruence.
Qed.

(* ------------------------------------------------------------------ *)
(** ** DeleteUserUseCase *)

(** X10: [execute_soft_delete] succeeds exactly on one's own, non-blank id
    whose first stored user is active; it then returns that user deactivated
    (inactive, [updated_at] the current time) and replaces that document, and
    only it, in the collection. *)
Theorem soft_delete_spec (now : nat) (uid rid : string) (s s' : Store) (v : User) :
  execute_soft_delete now uid rid s = (inr v, s') <->
  uid = rid /\ is_blank uid = false /\
  exists pre u post, s = (pre ++ u :: post)%list /\ find_by_id uid pre = None /\ id u = uid /\
    is_active u = true /\ v = deactivate now u /\ s' = (pre ++ v :: post)%list.
Proof.
  split.
  - intros H. destruct (soft_delete_inv _ _ _ _ _ _ H) as [[_ Hn]|(Heq & Hb & pre & u & post & Hs & Hp & Hu & Ha & Hr & Hs')].
    + exfalso. exact (Hn v eq_refl).
    + injection Hr as Hr. subst v. split; [exact Heq|]. split; [exact Hb|]. exists pre, u, post. auto 7.
  - intros (<- & Hb & pre & u & post & -> & Hp & Hu & Ha & -> & ->).
    exact (soft_delete_run now uid u pre post Hb Hp Hu Ha).
Qed.

(** X11: [reactivate_user] succeeds exactly on one's own, non-blank id whose
    first stored user is inactive; it then returns that user activated
    ([updated_at] the current time) and replaces that document, and only it. *)
Theorem reactivate_spec (now : nat) (uid rid : string) (s s' : Store) (v : User) :
  reactivate_user now uid rid s = (inr v, s') <->
  uid = rid /\ is_blank uid = false /\
  exists pre u post, s = (pre ++ u :: post)%list /\ find_by_id uid pre = None /\ id u = uid /\
    is_active u = false /\ v = activate now u /\ s' = (pre ++ v :: post)%list.
Proof.
  split.
  - intros H. destruct (reactivate_inv _ _ _ _ _ _ H) as [[_ Hn]|(Heq & Hb & pre & u & post & Hs & Hp & Hu & Ha & Hr & Hs')].
    + exfalso. exact (Hn v eq_refl).
    + injection Hr as Hr. subst v. split; [exact Heq|]. split; [exact Hb|]. exists pre, u, post. auto 7.
  - intros (<- & Hb & pre & u & post & -> & Hp & Hu & Ha & -> & ->).
    exact (reactivate_run now uid u pre post Hb Hp Hu Ha).
Qed.

(** X12: [execute_hard_delete] succeeds exactly on one's own, non-blank,
    stored id, active or not; it returns that id and removes the first
    document with it, leaving the others in order. *)
Theorem hard_delete_spec (uid rid : string) (s s' : Store) (r : string) :
  execute_hard_delete uid rid s = (inr r, s') <->
  uid = rid /\ is_blank uid = false /\ r = uid /\
  exists pre u post, s = (pre ++ u :: post)%list /\ find_by_id uid pre = None /\ id u = uid /\
    s' = (pre ++ post)%list.
Proof.
  split.
  - intros H. destruct (hard_delete_inv _ _ _ _ _ H) as [[_ Hn]|(Heq & Hb & pre & u & post & Hs & Hp & Hu & Hr & Hs')].
    + exfalso. exact (Hn r eq_refl).
    + injection Hr as Hr. subst r. split; [exact Heq|]. split; [exact Hb|]. split; [reflexivity|].
      exists pre, u, post. auto.
  - intros (<- & Hb & -> & pre & u & post & -> & Hp & Hu & ->).
    exact (hard_delete_run uid u pre post Hb Hp Hu).
Qed.

(** X13: a soft delete followed by a reactivation of the same account
    succeeds and leaves the collection as it was, but for that user's
    [updated_at], now the time of the reactivation. *)
Theorem soft_delete_then_reactivate (n1 n2 : nat) (uid : string) (u : User) (s : Store) :
  is_blank uid = false -> find_by_id uid s = Some u -> is_active u = true ->
  exists pre post, s = (pre ++ u :: post)%list /\
    let u2 := mkUser (id u) (email u) (password_hash u) (is_active u) (created_at u) n2 in
    (execute_soft_delete n1 uid uid ;;; reactivate_user n2 uid uid) s = (inr u2, (pre ++ u2 :: post)%list).
Proof.
  intros Hb Hf Ha.
  destruct (find_by_id_split _ _ _ Hf) as (pre & post & -> & Hp).
  pose proof (find_by_id_id _ _ _ Hf) as Hu.
  exists pre, post. split; [reflexivity|]. cbv zeta. rewrite Ha. cbv [bind].
  rewrite (soft_delete_run n1 uid u pre post Hb Hp Hu Ha).
  exact (reactivate_run n2 uid (deactivate n1 u) pre post Hb Hp Hu eq_refl).
Qed.

(* ------------------------------------------------------------------ *)
(** ** The routes of [user_routes.py] *)

(** X14: [POST /{user_id}/reactivate] never succeeds and never writes: its
    dependency only lets active users through, and the use case reactivates
    only the caller's own, inactive account. A caller with a non-blank id
    who asks for that id gets 400 ["Usuario ya está activo"]. *)
Theorem reactivate_route_never_succeeds (now : nat) (credentials user_id : string) (s : Store) :
  (exists e, reactivate_user_route now credentials user_id s = (inl e, s)) /\
  (forall u, get_current_user now credentials s = (inr u, s) -> is_blank (id u) = false ->
     reactivate_user_route now credentials (id u) s =
     (inl (HTTPException 400 "Usuario ya está activo" []), s)).
Proof.
  unfold reactivate_user_route.
  destruct (current_active_user_cases now credentials s) as [(e & H & Hg & _)|(u & Hf & Ha & Hg & H)];
    cbv [bind]; rewrite H.
  - split; [eexists; reflexivity|]. intros u Hu. congruence.
  - split.
    + destruct (reactivate_user now user_id (id u) s) as [r s'] eqn:E.
      destruct (reactivate_inv _ _ _ _ _ _ E) as [[-> Hn]|(Heq & _ & pre & w & post & Hs & Hp & Hw & Hwa & _ & _)].
      * destruct r as [e|v]; [|exfalso; exact (Hn v eq_refl)].
        exact (route_guard_value_inl _ _ _ E).
      * subst s. rewrite <- Heq in Hf. rewrite (find_by_id_app _ pre post w Hp Hw) in Hf. congruence.
    + intros u' Hu' Hb. rewrite Hg in Hu'. injection Hu' as <-.
      rewrite (route_guard_value_error _ s "Usuario ya está activo"); [reflexivity|].
      unfold reactivate_user. rewrite Hb, String.eqb_refl.
      mred_goal. rewrite Hf, Ha. reflexivity.
Qed.

(** X15: [GET /{user_id}] never answers with a user: the controller returns
    the [dict] of [create_user_detail_response], on which [user_to_response]
    raises [AttributeError]. After the dependency it answers 500 whatever
    the id; nothing is written. *)
Theorem get_user_by_id_route_always_fails (now : nat) (credentials user_id : string) (s : Store) :
  exists e, get_user_by_id_route now credentials user_id s = (inl e, s) /\
    (e = credentials_exception \/ e = inactive_user_exception \/ e = internal_server_error).
Proof.
  unfold get_user_by_id_route.
  destruct (current_active_user_cases now credentials s) as [(e & H & _ & He)|(u & _ & _ & _ & H)];
    cbv [bind]; rewrite H.
  - exists e. split; [reflexivity|]. destruct He; auto.
  - exists internal_server_error. split; [|auto].
    destruct (get_user_by_id_execute_result user_id (id u) s) as [(v & Hv)|(e & He & Hr)].
    + cbv [route_guard catch bind raise ret user_to_response create_user_detail_response].
      rewrite Hv. reflexivity.
    + cbv [route_guard catch bind raise ret]. rewrite He, Hr. reflexivity.
Qed.

(** X16: [PUT /{user_id}] never succeeds and never writes: after the
    dependency it answers 500, as the use case raises on every path and
    never a [ValueError]. *)
Theorem update_user_route_always_fails (now : nat) (salt22 credentials user_id : string)
    (new_email new_password : option string) (s : Store) :
  valid_salt22 salt22 = true ->
  exists e, update_user_route now salt22 credentials user_id new_email new_password s = (inl e, s) /\
    (e = credentials_exception \/ e = inactive_user_exception \/ e = internal_server_error).
Proof.
  intros Hs. unfold update_user_route.
  destruct (current_active_user_cases now credentials s) as [(e & H & _ & He)|(u & _ & _ & _ & H)];
    cbv [bind]; rewrite H.
  - exists e. split; [reflexivity|]. destruct He; auto.
  - destruct (update_user_fails now salt22 user_id (id u) new_email new_password s Hs) as (x & Hx & Hr).
    exists internal_server_error. split; [|auto]. rewrite <- Hr. exact (route_guard_inl _ _ _ Hx).
Qed.

(** X17: after [DELETE /{user_id}] succeeds, the response's [deleted_id] is
    the caller's own id, and the authentication dependency refuses every
    later token for that id, so no route can be called as that user again
    (reactivation included). *)
Theorem deactivate_route_locks_out (now : nat) (credentials user_id r : string) (s s' : Store) :
  deactivate_user_route now credentials user_id s = (inr r, s') ->
  r = user_id /\
  forall t token u s'', current_active_user t token s' = (inr u, s'') -> id u <> user_id.
Proof.
  intros H. unfold deactivate_user_route in H.
  destruct (current_active_user_cases now credentials s) as [(e & He & _ & _)|(u & _ & _ & _ & Hu)];
    cbv [bind] in H; rewrite ?He, ?Hu in H; [discriminate H|].
  apply route_guard_inr in H. cbv [bind ret] in H.
  destruct (execute_soft_delete now user_id (id u) s) as [[e|v] s1] eqn:E; [discriminate H|].
  injection H as <- <-.
  destruct (soft_delete_inv _ _ _ _ _ _ E) as [[_ Hn]|(_ & _ & pre & w & post & _ & Hp & Hw & _ & Hr & Hs')];
    [exfalso; exact (Hn v eq_refl)|].
  injection Hr as Hr. subst v s1. split; [exact Hw|].
  intros t token u' s'' H' Hid.
  destruct (current_active_user_cases t token (pre ++ deactivate now w :: post)%list)
    as [(e & He & _ & _)|(u2 & Hf2 & Ha2 & _ & H2)]; rewrite H' in *; [discriminate|].
  injection H2 as <- _. rewrite Hid in Hf2.
  rewrite (find_by_id_app _ pre post (deactivate now w) Hp Hw) in Hf2.
  injection Hf2 as <-. discriminate Ha2.
Qed.

Lemma emails_unique_replace (pre post : Store) (u v : User) :
  emails_normalized_unique (pre ++ u :: post)%list -> email v = email u ->
  emails_normalized_unique (pre ++ v :: post)%list.
Proof.
  intros [Hn Hd] Hv. split.
  - apply Forall_app in Hn as [H1 H2]. apply Forall_app. split; [exact H1|].
    inversion H2 as [|? ? Hu Hp]; subst. constructor; [rewrite Hv; exact Hu|exact Hp].
  - rewrite map_app in *. cbn [map] in *. rewrite Hv. exact Hd.
Qed.

Lemma emails_unique_remove (pre post : Store) (u : User) :
  emails_normalized_unique (pre ++ u :: post)%list -> emails_normalized_unique (pre ++ post)%list.
Proof.
  intros [Hn Hd]. split.
  - apply Forall_app in Hn as [H1 H2]. apply Forall_app. split; [exact H1|].
    inversion H2; assumption.
  - rewrite map_app in *. cbn [map] in *. exact (NoDup_remove_1 _ _ _ Hd).
Qed.

(* ------------------------------------------------------------------ *)
(** ** GetUserByIdUseCase *)


(** X19: [execute_by_admin] returns the stored user whether active or not,
    where [execute_own_profile] raises [UserInactiveException] for an
    inactive one; both read only. *)
Theorem profile_and_admin_on_stored_user (user_id : string) (u : User) (s : Store) :
  is_blank (sanitize_user_id user_id) = false ->
  find_by_id (sanitize_user_id user_id) s = Some u ->
  execute_by_admin user_id s = (inr u, s) /\
  execute_own_profile user_id s =
    (if is_active u then (inr u, s) else (inl (UserInactiveException (sanitize_user_id user_id)), s)).
Proof.
  intros Hb Hf. unfold execute_by_admin, execute_own_profile, wrap_unexpected. mred_goal.
  rewrite Hb, Hf. split; [reflexivity|]. destruct (is_active u); reflexivity.
Qed.

(* ------------------------------------------------------------------ *)
(** ** ListUsersUseCase *)

(** X20: an authorized listing reads only; its page is the active users
    among the [limit] documents that follow the first [skip] in natural
    order, so the inactive ones in that window make the page shorter, and its
    total counts the active users among the first 1000 documents. *)
Theorem list_users_page (requesting_user_id : string) (skip limit : Z) (ru : User) (s : Store) :
  is_blank requesting_user_id = false -> (0 <= skip)%Z -> (1 <= limit <= 100)%Z ->
  find_by_id requesting_user_id s = Some ru -> is_active ru = true ->
  list_users requesting_user_id skip limit s =
  (inr (filter is_active (firstn (Z.to_nat limit) (skipn (Z.to_nat skip) s)),
        count_active (firstn 1000 s)), s).
Proof.
  intros Hb Hs Hl Hf Ha. unfold list_users, count_active_users, get_all.
  rewrite Hb.
  replace (skip <? 0)%Z with false by (symmetry; apply Z.ltb_ge; lia).
  replace ((limit <? 1) || (100 <? limit))%Z with false
    by (destruct (Z.ltb_spec limit 1), (Z.ltb_spec 100 limit); lia || reflexivity).
  cbv [bind raise ret get_by_id negb]. rewrite Hf, Ha.
  replace (Nat.eqb (Z.to_nat limit) 0) with false by (symmetry; apply Nat.eqb_neq; lia).
  reflexivity.
Qed.

(** X21: [execute_by_admin] of the listing checks no requester; with
    [include_inactive] it returns the [limit] documents after the first
    [skip] and the number of all documents, otherwise the active ones among
    them and the active users among the first 1000 documents. *)
Theorem list_users_by_admin_result (skip limit : Z) (include_inactive : bool) (s : Store) :
  (0 <= skip)%Z -> (1 <= limit <= 100)%Z ->
  let page := firstn (Z.to_nat limit) (skipn (Z.to_nat skip) s) in
  list_users_by_admin skip limit include_inactive s =
  (inr (if include_inactive then (page, length s)
        else (filter is_active page, count_active (firstn 1000 s))), s).
Proof.
  intros Hs Hl page. unfold list_users_by_admin, count_active_users, count_users, get_all.
  replace (skip <? 0)%Z with false by (symmetry; apply Z.ltb_ge; lia).
  replace ((limit <? 1) || (100 <? limit))%Z with false
    by (destruct (Z.ltb_spec limit 1), (Z.ltb_spec 100 limit); lia || reflexivity).
  replace (Nat.eqb (Z.to_nat limit) 0) with false by (symmetry; apply Nat.eqb_neq; lia).
  destruct include_inactive; reflexivity.
Qed.

(* ------------------------------------------------------------------ *)
(** ** The collection invariant under the delete use cases *)

(** X22: soft delete, reactivation and hard delete keep the collection's
    emails normalised and pairwise distinct, whatever their outcome. *)
Theorem delete_ops_keep_emails_unique (now : nat) (user_id requesting_user_id : string) (s : Store) :
  emails_normalized_unique s ->
  (forall r s', execute_soft_delete now user_id requesting_user_id s = (r, s') ->
                emails_normalized_unique s') /\
  (forall r s', reactivate_user now user_id requesting_user_id s = (r, s') ->
                emails_normalized_unique s') /\
  (forall r s', execute_hard_delete user_id requesting_user_id s = (r, s') ->
                emails_normalized_unique s').
Proof.
  intros Hu. refine (conj _ (conj _ _)); intros r s' H.
  - destruct (soft_delete_inv _ _ _ _ _ _ H) as [[-> _]|(_ & _ & pre & u & post & -> & _ & _ & _ & _ & ->)];
      [exact Hu|]. exact (emails_unique_replace pre post u (deactivate now u) Hu eq_refl).
  - destruct (reactivate_inv _ _ _ _ _ _ H) as [[-> _]|(_ & _ & pre & u & post & -> & _ & _ & _ & _ & ->)];
      [exact Hu|]. exact (emails_unique_replace pre post u (activate now u) Hu eq_refl).
  - destruct (hard_delete_inv _ _ _ _ _ H) as [[-> _]|(_ & _ & pre & u & post & -> & _ & _ & _ & ->)];
      [exact Hu|]. exact (emails_unique_remove pre post u Hu).
Qed.

(* ------------------------------------------------------------------ *)
(** ** The administrator variants *)

(** X23: the administrator soft and hard deletes behave exactly as the
    owner's soft and hard deletes called with the target id as the
    requesting id: same results, same messages, same writes. *)
Theorem admin_delete_is_owner_delete (now : nat) (user_id : string) (s : Store) :
  execute_by_admin_soft now user_id s = execute_soft_delete now user_id user_id s /\
  execute_by_admin_hard user_id s = execute_hard_delete user_id user_id s.
Proof.
  unfold execute_by_admin_soft, execute_soft_delete, execute_by_admin_hard, execute_hard_delete.
  destruct (is_blank user_id); [split; reflexivity|]. rewrite String.eqb_refl. split; reflexivity.
Qed.

(** X24: the administrator update never succeeds when it is given a new
    email or a new password (it raises with the collection unchanged, as
    [User] has neither [update_email] nor [update_password_hash]); given only
    [is_active], it sets that flag on the stored user, stamps [updated_at]
    and replaces that document, unless the document already equals the
    result. *)
Theorem update_user_by_admin_outcomes (now : nat) (salt22 user_id : string)
    (new_email new_password : option string) (is_active_opt : option bool) (s : Store) :
  valid_salt22 salt22 = true ->
  (truthy new_email || truthy new_password = true ->
     exists x, update_user_by_admin now salt22 user_id new_email new_password is_active_opt s = (inl x, s)) /\
  (forall u b, is_active_opt = Some b -> truthy new_email = false -> truthy new_password = false ->
     is_blank user_id = false -> find_by_id user_id s = Some u ->
     let v := mkUser (id u) (email u) (password_hash u) b (created_at u) now in
     user_eqb u v = false ->
     exists pre post, s = (pre ++ u :: post)%list /\
       update_user_by_admin now salt22 user_id new_email new_password is_active_opt s =
       (inr v, (pre ++ v :: post)%list)).
Proof.
  intros Hs. split.
  - intros Ht. unfold update_user_by_admin.
    destruct (is_blank user_id); [eexists; reflexivity|].
    destruct (truthy new_email) eqn:Tn, (truthy new_password) eqn:Tp; try discriminate Ht;
      cbn [negb andb]; mred_goal;
      (destruct (find_by_id user_id s) as [u|]; [|eexists; reflexivity]).
    all: destruct new_email as [e|]; cbv beta iota.
    all: try (destruct (update_user_email_fails now u e s) as (x & Hx & _); rewrite Hx;
              eexists; reflexivity).
    all: destruct new_password as [p|]; cbv beta iota.
    all: try (destruct (update_user_password_fails now salt22 u p s Hs) as (x & Hx & _); rewrite Hx;
              eexists; reflexivity).
    all: cbv [truthy] in Tn, Tp; congruence.
  - intros u b -> Tn Tp Hb Hf v Hv.
    destruct (find_by_id_split _ _ _ Hf) as (pre & post & -> & Hp).
    pose proof (find_by_id_id _ _ _ Hf) as Hu.
    exists pre, post. split; [reflexivity|].
    unfold update_user_by_admin. rewrite Hb, Tn, Tp. cbn [negb andb]. mred_goal.
    rewrite (find_by_id_app _ pre post u Hp Hu).
    destruct new_email as [e|], new_password as [p|]; cbv beta iota;
    destruct b; cbv [call_user_method user_mutator repo_update]; simpl;
    rewrite (replace_one_split _ u pre post); try reflexivity; simpl; try (rewrite Hu; exact Hp);
    exact Hv.
Qed.

End Auth.

(* ================================================================== *)
(** * Concrete runs *)

Example is_valid_email_ok : is_valid_email "Ana.Perez@mail.example.com" = true.
Proof. reflexivity. Qed.
Example is_valid_email_newline :
  is_valid_email ("a@b.co" ++ String newline EmptyString) = true.
Proof. reflexivity. Qed.
Example is_valid_email_bad : is_valid_email "a@b.c" = false.
Proof. reflexivity. Qed.
Example normalize_email_ex : normalize_email "  Ana@Mail.COM " = "ana@mail.com".
Proof. reflexivity. Qed.

(** ** ListUsersUseCase *)

Lemma forallb_filter_self {A} (f : A -> bool) (l : list A) : forallb f (filter f l) = true.
Proof. induction l as [|x l IH]; simpl; [reflexivity|]. destruct (f x) eqn:E; simpl; rewrite ?E; auto. Qed.

(** A successful listing reads only, returns active users, and counts the
    active users among the first 1000 documents. *)
Lemma list_users_result (rid : string) (skip limit : Z) (s s' : Store) (page : list User) (total : nat) :
  list_users rid skip limit s = (inr (page, total), s') ->
  s' = s /\ forallb is_active page = true /\ total = count_active (firstn 1000 s).
Proof.
  unfold list_users, count_active_users, get_all.
  destruct (is_blank rid); [discriminate|].
  destruct (skip <? 0)%Z; [discriminate|].
  destruct ((limit <? 1) || (100 <? limit))%Z; [discriminate|].
  cbv [bind raise ret get_by_id negb].
  destruct (find_by_id rid s) as [ru|]; [|discriminate].
  destruct (is_active ru); [|discriminate].
  intros H. injection H as <- <- <-. split; [reflexivity|]. split; [apply forallb_filter_self|reflexivity].
Qed.

(** C3: the total is not the number of active users once the collection
    holds more than 1000 documents: with 1001 active users, an authorized
    request for the first page reports a total of 1000. *)
Theorem list_users_total_capped :
  list_users "u0" 0 100 (many_users 1001) =
    (inr (firstn 100 (many_users 1001), 1000), many_users 1001) /\
  count_active (many_users 1001) = 1001.
Proof. split; vm_compute; reflexivity. Qed.

(** ** Runs of the claims' theorems *)



Lemma update_user_attribute_error_witness :
  update_user toy_eks 7 demo_salt "u1" "u1" (Some "New@Example.com") None [demo_active] =
  (inl (AttributeError "'User' object has no attribute 'update_email'"), [demo_active]).
Proof.
  apply (proj1 (update_user_attribute_error toy_eks 7 demo_salt "u1" demo_active [demo_active]
                  eq_refl eq_refl eq_refl)).
  - reflexivity.
  - intros ex H. vm_compute in H. discriminate H.
Defined.



Lemma state_check_errors_witness :
  execute_soft_delete 3 "u1" "u1" [demo_inactive] =
  (inl (ValueError "Usuario ya está inactivo"), [demo_inactive]).
Proof.
  apply (proj1 (state_check_errors toy_hmac "k" 3 "u1" demo_inactive [demo_inactive] eq_refl eq_refl)).
  reflexivity.
Defined.

Lemma password_hasher_roundtrip_witness :
  verify_password toy_eks "secret1" demo_hash = true.
Proof.
  destruct (password_hasher_roundtrip toy_eks demo_salt "secret1" "other99" eq_refl
              (is_blank_nonempty "secret1" eq_refl) (is_blank_nonempty "other99" eq_refl)
              eq_refl eq_refl) as (h & h2 & Hh & _ & _ & _ & Hv & _).
  vm_compute in Hh. injection Hh as <-. exact Hv.
Defined.

(** ** Counterexamples to the claims as worded *)

(** C1: a valid token for an inactive user and a garbage token are refused
    with different exceptions. *)
Lemma gate_inactive_user_counterexample :
  get_current_user toy_hmac "k" 20 (create_access_token toy_hmac "k" 30 10 "u1" "ana@example.com")
    [demo_inactive] = (inl inactive_user_exception, [demo_inactive]) /\
  get_current_user toy_hmac "k" 20 "garbage" [demo_inactive] = (inl credentials_exception, [demo_inactive]) /\
  inactive_user_exception <> credentials_exception.
Proof. split; [vm_compute; reflexivity | split; [vm_compute; reflexivity | discriminate]]. Qed.



(** C7: the state checks raise [ValueError], not [BusinessRuleException]. *)
Lemma state_check_value_error_counterexample :
  execute_soft_delete 3 "u1" "u1" [demo_inactive] =
    (inl (ValueError "Usuario ya está inactivo"), [demo_inactive]) /\
  reactivate_user 3 "u1" "u1" [demo_active] =
    (inl (ValueError "Usuario ya está activo"), [demo_active]).
Proof. split; vm_compute; reflexivity. Qed.


(** C9: two distinct passwords that share their first 72 bytes: the hash of
    one verifies the other, although the bcrypt core tells the full
    passwords apart. *)
Lemma password_truncation_counterexample :
  long_pw_x <> long_pw_y /\
  toy_eks 12 demo_salt long_pw_x <> toy_eks 12 demo_salt long_pw_y /\
  hash_password toy_eks demo_salt long_pw_y =
    inr ("$2b$12$" ++ demo_salt ++ toy_eks 12 demo_salt (substring 0 72 long_pw_y)) /\
  verify_password toy_eks long_pw_x ("$2b$12$" ++ demo_salt ++ toy_eks 12 demo_salt (substring 0 72 long_pw_y)) = true.
Proof.
  split; [apply String.eqb_neq; vm_compute; reflexivity|].
  split; [apply String.eqb_neq; vm_compute; reflexivity|].
  split; vm_compute; reflexivity.
Qed.


(** ** Runs of the further properties *)

Lemma create_user_keeps_emails_unique_witness :
  emails_normalized_unique
    (snd (create_user toy_eks 0 "u2" demo_salt "Bob@Example.com" "secret2" [demo_active])).
Proof.
  apply (create_user_keeps_emails_unique toy_eks 0 "u2" demo_salt "Bob@Example.com" "secret2"
           [demo_active] _
           (fst (create_user toy_eks 0 "u2" demo_salt "Bob@Example.com" "secret2" [demo_active]))).
  - split; [repeat constructor | repeat constructor; simpl; tauto].
  - apply surjective_pairing.
Defined.

Lemma soft_delete_then_reactivate_witness :
  exists pre post, [demo_other; demo_active] = (pre ++ demo_active :: post)%list /\
    let u2 := mkUser "u1" "ana@example.com" demo_hash true 0 9 in
    (execute_soft_delete 5 "u1" "u1" ;;; reactivate_user 9 "u1" "u1") [demo_other; demo_active] =
    (inr u2, (pre ++ u2 :: post)%list).
Proof.
  exact (soft_delete_then_reactivate 5 9 "u1" demo_active [demo_other; demo_active]
           eq_refl eq_refl eq_refl).
Defined.

Lemma update_user_route_always_fails_witness :
  exists e, update_user_route toy_eks toy_hmac "k" 10 demo_salt
              (create_access_token toy_hmac "k" 30 0 "u1" "ana@example.com") "u1"
              (Some "new@example.com") None [demo_active] = (inl e, [demo_active]) /\
    (e = credentials_exception \/ e = inactive_user_exception \/ e = internal_server_error).
Proof. apply update_user_route_always_fails. reflexivity. Defined.

Lemma deactivate_route_locks_out_witness :
  deactivate_user_route toy_hmac "k" 10 (create_access_token toy_hmac "k" 30 0 "u1" "ana@example.com")
    "u1" [demo_active] = (inr "u1", [deactivate 10 demo_active]) /\
  forall t token u s'', current_active_user toy_hmac "k" t token [deactivate 10 demo_active] = (inr u, s'') ->
    id u <> "u1".
Proof.
  assert (H : deactivate_user_route toy_hmac "k" 10
                (create_access_token toy_hmac "k" 30 0 "u1" "ana@example.com")
                "u1" [demo_active] = (inr "u1", [deactivate 10 demo_active]))
    by (vm_compute; reflexivity).
  split; [exact H|]. exact (proj2 (deactivate_route_locks_out toy_hmac "k" 10 _ "u1" "u1" _ _ H)).
Defined.


Lemma profile_and_admin_on_stored_user_witness :
  execute_by_admin (fun x => x) "u1" [demo_inactive] = (inr demo_inactive, [demo_inactive]) /\
  execute_own_profile (fun x => x) "u1" [demo_inactive] =
  (inl (UserInactiveException "u1"), [demo_inactive]).
Proof.
  exact (profile_and_admin_on_stored_user (fun x => x) "u1" demo_inactive [demo_inactive]
           eq_refl eq_refl).
Defined.

Lemma list_users_page_witness :
  list_users "u1" 0 2 [demo_active; demo_gone; demo_other] =
  (inr ([demo_active], 2), [demo_active; demo_gone; demo_other]).
Proof.
  exact (list_users_page "u1" 0 2 demo_active [demo_active; demo_gone; demo_other]
           eq_refl ltac:(lia) ltac:(lia) eq_refl eq_refl).
Defined.

Lemma list_users_by_admin_result_witness :
  list_users_by_admin 0 2 true [demo_active; demo_gone; demo_other] =
  (inr ([demo_active; demo_gone], 3), [demo_active; demo_gone; demo_other]).
Proof.
  exact (list_users_by_admin_result 0 2 true [demo_active; demo_gone; demo_other]
           ltac:(lia) ltac:(lia)).
Defined.

Lemma delete_ops_keep_emails_unique_witness :
  emails_normalized_unique (snd (execute_hard_delete "u1" "u1" [demo_active; demo_other])).
Proof.
  refine (proj2 (proj2 (delete_ops_keep_emails_unique 0 "u1" "u1" [demo_active; demo_other] _))
            (fst (execute_hard_delete "u1" "u1" [demo_active; demo_other])) _
            (surjective_pairing _)).
  split; [repeat constructor | repeat constructor; simpl; intuition discriminate].
Defined.

Lemma update_user_by_admin_outcomes_witness :
  exists pre post, [demo_inactive] = (pre ++ demo_inactive :: post)%list /\
    update_user_by_admin toy_eks 7 demo_salt "u1" None None (Some true) [demo_inactive] =
    (inr (mkUser "u1" "ana@example.com" demo_hash true 0 7),
     (pre ++ mkUser "u1" "ana@example.com" demo_hash true 0 7 :: post)%list).
Proof.
  exact (proj2 (update_user_by_admin_outcomes toy_eks 7 demo_salt "u1" None None (Some true)
                  [demo_inactive] eq_refl)
           demo_inactive true eq_refl eq_refl eq_refl eq_refl eq_refl eq_refl).
Defined.
